(** * Font resolution and caching: a model of [font_management.py]

    The development embeds the two functions of the module,
    [download_google_font] and [load_fonts], together with the Python
    primitives they rely on, and proves properties of the resolution chain
    (local override, remote download with an on-disk cache, bundled default).

    Conventions of the model.
    - Text is a [string] of ASCII characters (codes below 128), on which
      [str.lower] changes the letters A to Z only; the regular expression
      classes are the ASCII ones.  Where a statement depends on a family
      name being such a text, it says so ([PyStr.ascii_text]).
    - Integers are unbounded and [int] is total: a run of digits in the
      stylesheet stays within the conversion limit of the interpreter.
    - A Python [dict] is an association list in insertion order: assigning an
      existing key keeps its position, a new key goes last.
    - Paths are POSIX paths.  The file system is a finite map from path
      strings to contents, and a path names a file by its spelling.
    - The network and the outcome of an operation that writes to the disk
      belong to the environment: the writing of a file, and the making of
      the cache directory by [mkdir].  Both may depend on everything that
      happened before (the history of effects), so a request can fail once
      and succeed later.  Since no [exists] test of the module is aimed at
      a directory, [mkdir] leaves the map of files as it is.
    - A call returns a value or leaves by an exception that nothing in the
      module catches ([outcome]).  The one statement that can do so is the
      [mkdir] of [download_google_font], which stands before its [try].
    - Console output is not modelled. *)

From Stdlib Require Import ZArith Ascii String DecimalString Lia.
From stdpp Require Import gmap strings list.

Local Open Scope Z_scope.

(** ** Python strings *)

Module PyStr.

Definition lower_char (c : ascii) : ascii :=
  let n := N_of_ascii c in
  if ((65 <=? n) && (n <=? 90))%N then ascii_of_N (n + 32) else c.

(** [s.lower()], for a text of ASCII characters. *)
Fixpoint lower (s : string) : string :=
  match s with
  | "" => ""
  | String c s' => String (lower_char c) (lower s')
  end.

(** [s.replace(old, new)] for single characters [old] and [new]. *)
Fixpoint replace_char (old new : ascii) (s : string) : string :=
  match s with
  | "" => ""
  | String c s' =>
      String (if Ascii.eqb c old then new else c) (replace_char old new s')
  end.

(** [s.startswith(p)] *)
Fixpoint startswith (p s : string) : bool :=
  match p, s with
  | "", _ => true
  | String a p', String b s' => Ascii.eqb a b && startswith p' s'
  | String _ _, "" => false
  end.

(** [s.endswith(p)] *)
Fixpoint endswith (p s : string) : bool :=
  String.eqb s p ||
  match s with
  | "" => false
  | String _ s' => endswith p s'
  end.

(** [needle in hay] *)
Fixpoint contains (needle hay : string) : bool :=
  startswith needle hay ||
  match hay with
  | "" => false
  | String _ hay' => contains needle hay'
  end.

(** [sep.join(parts)] *)
Fixpoint join (sep : string) (parts : list string) : string :=
  match parts with
  | [] => ""
  | [p] => p
  | p :: ps => p +:+ sep +:+ join sep ps
  end.

(** [str(n)] for an integer. *)
Definition str_of_int (n : Z) : string :=
  NilZero.string_of_int (Z.to_int n).

(** Truth value of a string: empty is false. *)
Definition nonempty (s : string) : bool :=
  match s with "" => false | _ => true end.

(** A text of ASCII characters: on these [lower] is [str.lower]. *)
Fixpoint ascii_text (s : string) : bool :=
  match s with
  | "" => true
  | String c s' => (N_of_ascii c <? 128)%N && ascii_text s'
  end.

End PyStr.

(** ** Python dictionaries, in insertion order *)

Module Dict.
Section Ops.
Context {K V : Type} `{EqDecision K}.

(** [d.get(k)] *)
Fixpoint get (k : K) (d : list (K * V)) : option V :=
  match d with
  | [] => None
  | (k', v) :: d' => if decide (k' = k) then Some v else get k d'
  end.

(** [k in d] *)
Definition mem (k : K) (d : list (K * V)) : bool :=
  match get k d with Some _ => true | None => false end.

(** [d[k] = v] *)
Fixpoint set (k : K) (v : V) (d : list (K * V)) : list (K * V) :=
  match d with
  | [] => [(k, v)]
  | (k', v') :: d' =>
      if decide (k' = k) then (k', v) :: d' else (k', v') :: set k v d'
  end.

(** [d.setdefault(k, v)] *)
Definition setdefault (k : K) (v : V) (d : list (K * V)) : list (K * V) :=
  if mem k d then d else set k v d.

(** [list(d.keys())] and [list(d.values())] *)
Definition keys (d : list (K * V)) : list K := d.*1.
Definition values (d : list (K * V)) : list V := d.*2.

(** Truth value of a dictionary: empty is false. *)
Definition not_empty (d : list (K * V)) : bool :=
  match d with [] => false | _ => true end.
End Ops.
End Dict.

(** [min(xs, key=f)] on a non-empty sequence [x :: xs]: the first element
    whose key is minimal. *)
Fixpoint py_min_by (f : Z → Z) (x : Z) (xs : list Z) : Z :=
  match xs with
  | [] => x
  | y :: ys => if f y <? f x then py_min_by f y ys else py_min_by f x ys
  end.

(** ** Reading the stylesheet returned by the catalog

    The three regular expressions of [download_google_font], each written
    as the matcher it denotes.  [re.search] tries every start position from
    the left; greedy runs need no backtracking here, because the character
    that must follow a run is never a member of the run's class. *)

Module Css.
Import PyStr.

(** ASCII members of the classes [\s] and [\d]. *)
Definition is_space (c : ascii) : bool :=
  let n := N_of_ascii c in
  (((9 <=? n) && (n <=? 13)) || ((28 <=? n) && (n <=? 32)))%N.

Definition is_digit (c : ascii) : bool :=
  let n := N_of_ascii c in ((48 <=? n) && (n <=? 57))%N.

Fixpoint drop (n : nat) (s : string) : string :=
  match n, s with
  | O, _ => s
  | S n', String _ s' => drop n' s'
  | S _, "" => ""
  end.

(** The longest prefix whose characters satisfy [p]. *)
Fixpoint span (p : ascii → bool) (s : string) : string :=
  match s with
  | "" => ""
  | String c s' => if p c then String c (span p s') else ""
  end.

(** [int(ds)] for a run of decimal digits. *)
Definition int_of_digits (ds : string) : Z :=
  let fix go (acc : Z) (s : string) : Z :=
    match s with
    | "" => acc
    | String c s' => go (10 * acc + (Z.of_N (N_of_ascii c) - 48)) s'
    end in
  go 0 ds.

(** [@font-face\s*\{] at the start of [s]: the length of the match. *)
Definition match_font_face (s : string) : option nat :=
  if startswith "@font-face" s then
    let rest := drop 10 s in
    let ws := String.length (span is_space rest) in
    if startswith "{" (drop ws rest) then Some (10 + ws + 1)%nat else None
  else None.

(** [re.split(r"@font-face\s*\{", s)].  [skip] counts the characters of
    the current match that are still to be consumed. *)
Fixpoint split_go (skip : nat) (s : string) : list string :=
  match s with
  | "" => [""]
  | String c s' =>
      match skip with
      | S k => split_go k s'
      | O =>
          match match_font_face s with
          | Some n => "" :: split_go (n - 1) s'
          | None =>
              match split_go 0 s' with
              | piece :: rest => String c piece :: rest
              | [] => [String c ""]
              end
          end
      end
  end.

Definition split_font_face (css : string) : list string := split_go 0 css.

(** [font-weight:\s*(\d+)] at the start of [s]: the integer of group 1. *)
Definition weight_at (s : string) : option Z :=
  if startswith "font-weight:" s then
    let ds := span is_digit (drop (String.length (span is_space (drop 12 s)))
                                  (drop 12 s)) in
    if nonempty ds then Some (int_of_digits ds) else None
  else None.

Fixpoint search_weight (s : string) : option Z :=
  match weight_at s with
  | Some w => Some w
  | None => match s with "" => None | String _ s' => search_weight s' end
  end.

(** [url\((https://[^)]+\.(woff2|ttf))\)] at the start of [s]: group 1. *)
Definition url_at (s : string) : option string :=
  if startswith "url(https://" s then
    let rest := drop 12 s in
    let run := span (λ c, negb (Ascii.eqb c ")")) rest in
    let n := String.length run in
    if startswith ")" (drop n rest) &&
       ((endswith ".woff2" run && (6 <? n)%nat) ||
        (endswith ".ttf" run && (4 <? n)%nat))
    then Some ("https://" +:+ run) else None
  else None.

Fixpoint search_url (s : string) : option string :=
  match url_at s with
  | Some u => Some u
  | None => match s with "" => None | String _ s' => search_url s' end
  end.

(** The loop over the [@font-face] blocks (the first piece of the split
    is skipped), filling [weight_url_map]. *)
Definition add_block (weight_url_map : list (Z * string)) (block : string)
  : list (Z * string) :=
  match search_weight block with
  | None => weight_url_map
  | Some weight =>
      match search_url block with
      | Some u => Dict.set weight u weight_url_map
      | None => weight_url_map
      end
  end.

Definition parse_weight_url_map (css_content : string) : list (Z * string) :=
  foldl add_block [] (tail (split_font_face css_content)).

End Css.

(** ** Paths *)

Module Paths.
Import PyStr.

Definition FONTS_DIR : string := "fonts".

(** [Path(FONTS_DIR) / "cache"], as the list of its components. *)
Definition FONTS_CACHE_DIR : list string := [FONTS_DIR; "cache"].

(** [str(FONTS_CACHE_DIR)] *)
Definition cache_dir : string := join "/" FONTS_CACHE_DIR.

(** [os.path.join(a, b)] on POSIX: an absolute [b] replaces [a]. *)
Definition os_path_join (a b : string) : string :=
  if startswith "/" b then b
  else if negb (nonempty a) || endswith "/" a then a +:+ b
  else a +:+ "/" +:+ b.

(** [s.split("/")] *)
Fixpoint split_slash (s : string) : list string :=
  match s with
  | "" => [""]
  | String c s' =>
      if Ascii.eqb c "/" then "" :: split_slash s'
      else match split_slash s' with
           | piece :: rest => String c piece :: rest
           | [] => [String c ""]
           end
  end.

(** The components [pathlib] keeps: neither empty nor ["."]. *)
Definition kept (part : string) : bool :=
  nonempty part && negb (String.eqb part ".").

Definition components (s : string) : list string :=
  filter (λ part, kept part = true) (split_slash s).

(** [str(FONTS_CACHE_DIR / name)]: the name is cut at its slashes, empty
    and ["."] components go away; a name that starts with a slash replaces
    the directory, its root being ["//"] when it starts with exactly two
    slashes and ["/"] otherwise. *)
Definition cache_path (name : string) : string :=
  if startswith "/" name then
    (if startswith "//" name && negb (startswith "///" name)
     then "//" else "/") +:+ join "/" (components name)
  else join "/" (FONTS_CACHE_DIR ++ components name).

End Paths.

(** ** The environment: file system, network, history *)

Inductive request : Type :=
  | GetCss (family_param : string)   (* the catalog: [css2?family=...] *)
  | GetFont (url : string).          (* one font binary *)

Inductive event : Type :=
  | Probe (path : string)            (* an [exists] test *)
  | Fetch (r : request)              (* [requests.get] *)
  | Store (path : string).           (* [write_bytes] *)

(** What [Path.write_bytes] can do: it opens the file for writing, which
    creates it, and then writes the data. *)
Inductive write_outcome : Type :=
  | Written                          (* all bytes are on disk *)
  | OpenFailed                       (* raised before the file was created *)
  | Truncated (kept : nat).          (* raised after [kept] bytes *)

Record env : Type := Env {
  (** the body of a successful response; [None] when [requests.get] or
      [raise_for_status] raises *)
  net : list event → request → option string;
  (** what becomes of writing data to a path; with no data, of making
      the directory of that path *)
  disk : list event → string → string → write_outcome
}.

Record world : Type := World {
  files : gmap string string;
  history : list event
}.

(** Computations that read and change the world. *)
Definition IO (A : Type) : Type := world → A * world.

Definition ret {A} (a : A) : IO A := λ w, (a, w).
Definition bind {A B} (m : IO A) (k : A → IO B) : IO B :=
  λ w, let '(a, w') := m w in k a w'.

Declare Scope io_scope.
Delimit Scope io_scope with io.
Notation "'let*' x ':=' m 'in' k" := (bind m (λ x, k))
  (at level 10, x name, m at level 100, k at level 200) : io_scope.
Local Open Scope io_scope.

Fixpoint foldM {A B} (f : A → B → IO A) (a : A) (l : list B) : IO A :=
  match l with
  | [] => ret a
  | b :: l' => let* a' := f a b in foldM f a' l'
  end.

Definition record (e : event) (w : world) : world :=
  World (files w) (history w ++ [e]).

Definition present (fs : gmap string string) (path : string) : bool :=
  bool_decide (is_Some (fs !! path)).

(** [os.path.exists(p)] and [Path.exists()] *)
Definition path_exists (p : string) : IO bool :=
  λ w, (present (files w) p, record (Probe p) w).

(** [requests.get(...)] followed by [raise_for_status()] *)
Definition http_get (E : env) (r : request) : IO (option string) :=
  λ w, (net E (history w) r, record (Fetch r) w).

(** [Path.write_bytes(data)]; the result tells whether it returned. *)
Definition write_bytes (E : env) (p data : string) : IO bool :=
  λ w,
    match disk E (history w) p data with
    | Written => (true, record (Store p) (World (<[p := data]> (files w)) (history w)))
    | OpenFailed => (false, record (Store p) w)
    | Truncated n =>
        (false, record (Store p)
           (World (<[p := String.substring 0 n data]> (files w)) (history w)))
    end.

(** [Path.mkdir(parents=True, exist_ok=True)]; the result tells whether it
    returned.  It raises [OSError] when the directory is not there and
    cannot be made, as when a file stands at its path or at a parent. *)
Definition mkdir_p (E : env) (dir : string) : IO bool :=
  λ w,
    (match disk E (history w) dir "" with Written => true | _ => false end, w).

(** What a call leaves to its caller: the value it returns, or an
    exception that no handler has caught. *)
Inductive outcome (A : Type) : Type :=
  | Returned (a : A)
  | Raised.
Arguments Returned {A} a.
Arguments Raised {A}.

(** A computation that cannot raise. *)
Definition returned {A} (m : IO A) : IO (outcome A) :=
  let* a := m in ret (Returned a).

(** ** The module *)

Section Program.
Import PyStr Paths.

Variable E : env.

(** Truth value of the result of [dict.get] on a dictionary of strings. *)
Definition truthy (u : option string) : bool :=
  match u with Some s => nonempty s | None => false end.

(** *** [download_google_font] *)

Definition weight_map : list (Z * string) :=
  [(300, "light"); (400, "regular"); (700, "bold")].

Definition default_weights : list Z := [300; 400; 700].

(** [font_family.replace(" ", "_").lower()] *)
Definition font_name_safe (font_family : string) : string :=
  lower (replace_char " " "_" font_family).

(** [min(weight_url_map.keys(), key=lambda x: abs(x - weight))] *)
Definition closest_weight (weight_url_map : list (Z * string)) (weight : Z)
  : option Z :=
  match Dict.keys weight_url_map with
  | [] => None
  | k :: ks => Some (py_min_by (λ x, Z.abs (x - weight)) k ks)
  end.

(** The address used for one requested weight: the exact entry, or the
    entry of the closest weight when there is no exact one. *)
Definition find_url (weight_url_map : list (Z * string)) (weight : Z)
  : option string :=
  let weight_url := Dict.get weight weight_url_map in
  if negb (truthy weight_url) && Dict.not_empty weight_url_map then
    match closest_weight weight_url_map weight with
    | Some closest => Dict.get closest weight_url_map
    | None => weight_url
    end
  else weight_url.

Definition file_ext (weight_url : string) : string :=
  if endswith ".woff2" weight_url then "woff2" else "ttf".

(** [f"{font_name_safe}_{weight_key}.{file_ext}"] *)
Definition font_filename (name_safe weight_key ext : string) : string :=
  name_safe +:+ "_" +:+ weight_key +:+ "." +:+ ext.

(** One turn of the loop over [weights]. *)
Definition download_weight (name_safe : string)
    (weight_url_map : list (Z * string))
    (font_files : list (string * string)) (weight : Z)
  : IO (list (string * string)) :=
  let weight_key := default "regular" (Dict.get weight weight_map) in
  let weight_url := find_url weight_url_map weight in
  if truthy weight_url then
    let url := default "" weight_url in
    let font_path := cache_path (font_filename name_safe weight_key (file_ext url)) in
    let* cached := path_exists font_path in
    if negb cached then
      let* font_response := http_get E (GetFont url) in
      match font_response with
      | None => ret font_files                        (* except: continue *)
      | Some content =>
          let* ok := write_bytes E font_path content in
          if ok then ret (Dict.set weight_key font_path font_files)
          else ret font_files                         (* except: continue *)
      end
    else ret (Dict.set weight_key font_path font_files)
  else ret font_files.

(** The assignments after the loop. *)
Definition ensure_regular (font_files : list (string * string))
  : list (string * string) :=
  if negb (Dict.mem "regular" font_files) && Dict.not_empty font_files then
    match Dict.values font_files with
    | first :: _ => Dict.set "regular" first font_files
    | [] => font_files
    end
  else font_files.

Definition copy_regular (key : string) (font_files : list (string * string))
  : list (string * string) :=
  if negb (Dict.mem key font_files) && Dict.mem "regular" font_files then
    match Dict.get "regular" font_files with
    | Some r => Dict.set key r font_files
    | None => font_files
    end
  else font_files.

Definition fill_weights (font_files : list (string * string))
  : list (string * string) :=
  copy_regular "light" (copy_regular "bold" (ensure_regular font_files)).

Definition family_param (font_family : string) (weights : list Z) : string :=
  font_family +:+ ":wght@" +:+ join ";" (map str_of_int weights).

(** The [try] statement, lines 37 to 134; [None] is the answer of its
    handler. *)
Definition try_download (font_family : string)
    (weights : option (list Z)) : IO (option (list (string * string))) :=
  let weights := default default_weights weights in
  let name_safe := font_name_safe font_family in
  let* response := http_get E (GetCss (family_param font_family weights)) in
  match response with
  | None => ret None                                  (* outer except *)
  | Some css_content =>
      let weight_url_map := Css.parse_weight_url_map css_content in
      let* font_files :=
        foldM (download_weight name_safe weight_url_map) [] weights in
      let font_files := fill_weights font_files in
      ret (if Dict.not_empty font_files then Some font_files else None)
  end.

(** The directory is made before the [try] is entered (line 30), so an
    error of [mkdir] is not caught. *)
Definition download_google_font (font_family : string)
    (weights : option (list Z))
  : IO (outcome (option (list (string * string)))) :=
  let* made := mkdir_p E cache_dir in
  if made then returned (try_download font_family weights)
  else ret Raised.

(** *** [load_fonts] *)

Definition local_font_patterns (font_family : string) : list string :=
  [ font_family +:+ "-Reg.ttf";
    font_family +:+ "-Regular.ttf";
    font_family +:+ ".ttf";
    font_family +:+ "-Bold.ttf";
    font_family +:+ "-Bd.ttf";
    font_family +:+ "-Light.ttf" ].

(** One turn of the loop over the patterns. *)
Definition scan_pattern (local_fonts : list (string * string))
    (pattern : string) : IO (list (string * string)) :=
  let font_path := os_path_join FONTS_DIR pattern in
  let* found := path_exists font_path in
  if found then
    let pattern_lower := lower pattern in
    if contains "light" pattern_lower then
      ret (Dict.set "light" font_path local_fonts)
    else if contains "bold" pattern_lower || contains "-bd" pattern_lower then
      ret (Dict.set "bold" font_path local_fonts)
    else
      ret (Dict.set "regular" font_path local_fonts)
  else ret local_fonts.

(** Filling the weights that the scan did not find. *)
Definition fill_local (local_fonts : list (string * string))
  : list (string * string) :=
  match Dict.get "regular" local_fonts with
  | Some base_font =>
      Dict.setdefault "light" base_font
        (Dict.setdefault "bold" base_font local_fonts)
  | None =>
      match Dict.values local_fonts with
      | base_font :: _ =>
          foldl (λ d weight, Dict.setdefault weight base_font d) local_fonts
                ["regular"; "bold"; "light"]
      | [] => local_fonts
      end
  end.

Definition roboto_fonts : list (string * string) :=
  [ ("bold", os_path_join FONTS_DIR "Roboto-Bold.ttf");
    ("regular", os_path_join FONTS_DIR "Roboto-Regular.ttf");
    ("light", os_path_join FONTS_DIR "Roboto-Light.ttf") ].

(** The loop that verifies the default files; it stops at the first
    missing one. *)
Fixpoint all_exist (paths : list string) : IO bool :=
  match paths with
  | [] => ret true
  | path :: rest =>
      let* found := path_exists path in
      if found then all_exist rest else ret false
  end.

Definition load_roboto : IO (option (list (string * string))) :=
  let* ok := all_exist (Dict.values roboto_fonts) in
  ret (if ok then Some roboto_fonts else None).

Definition wants_custom (font_family : option string) : bool :=
  match font_family with
  | Some f => nonempty f && negb (String.eqb (lower f) "roboto")
  | None => false
  end.

(** The call of line 199 has no handler around it: what
    [download_google_font] raises leaves [load_fonts] too. *)
Definition load_fonts (font_family : option string)
  : IO (outcome (option (list (string * string)))) :=
  if wants_custom font_family then
    let family := default "" font_family in
    let* local_fonts := foldM scan_pattern [] (local_font_patterns family) in
    if Dict.not_empty local_fonts
    then ret (Returned (Some (fill_local local_fonts)))
    else
      let* fonts := download_google_font family None in
      match fonts with
      | Raised => ret Raised
      | Returned fonts =>
          if match fonts with Some d => Dict.not_empty d | None => false end
          then ret (Returned fonts)
          else returned load_roboto
      end
  else returned load_roboto.

End Program.

(** ** Sample environments *)

Module Samples.

Definition u_regular : string := "https://fonts.example/s/notosansjp/v1/regular.woff2".
Definition u_bold : string := "https://fonts.example/s/notosansjp/v1/bold.woff2".

(** A stylesheet that offers the weights 400 and 700. *)
Definition css_400_700 : string :=
  "@font-face { font-family: 'Noto Sans JP'; font-weight: 400; src: url("
  +:+ u_regular +:+ ") format('woff2'); } "
  +:+ "@font-face { font-family: 'Noto Sans JP'; font-weight: 700; src: url("
  +:+ u_bold +:+ ") format('woff2'); }".

Definition body_of (r : request) : string :=
  match r with
  | GetCss _ => css_400_700
  | GetFont u => "font data of " +:+ u
  end.

(** Every request is answered and every write succeeds. *)
Definition E_ok : env := Env (λ _ r, Some (body_of r)) (λ _ _ _, Written).

(** The network is down. *)
Definition E_offline : env := Env (λ _ _, None) (λ _ _ _, Written).

Definition w_empty : world := World ∅ [].

(** Only the bundled default family is installed. *)
Definition w_roboto : world :=
  World (list_to_map [ ("fonts/Roboto-Bold.ttf", "B");
                       ("fonts/Roboto-Regular.ttf", "R");
                       ("fonts/Roboto-Light.ttf", "L") ]) [].

End Samples.

(** ** Results with the three weights *)

Definition complete (d : list (string * string)) : Prop :=
  Dict.mem "light" d = true ∧ Dict.mem "regular" d = true ∧
  Dict.mem "bold" d = true.

(** ** The local scan, as a function of the file system

    [override_class] is the classification of an override file; [scan_step]
    is the body of the scanning loop once the [exists] test is answered by
    the files [fs]. *)

Definition override_class (filename : string) : string :=
  let name := PyStr.lower filename in
  if PyStr.contains "light" name then "light"
  else if PyStr.contains "bold" name || PyStr.contains "-bd" name then "bold"
  else "regular".

Definition local_path (pattern : string) : string :=
  Paths.os_path_join Paths.FONTS_DIR pattern.

Definition local_paths (font_family : string) : list string :=
  local_path <$> local_font_patterns font_family.

Definition scan_step (fs : gmap string string)
    (local_fonts : list (string * string)) (pattern : string)
  : list (string * string) :=
  if present fs (local_path pattern)
  then Dict.set (override_class pattern) (local_path pattern) local_fonts
  else local_fonts.

(** The catalog request of [load_fonts] for a family. *)
Definition catalog_request (font_family : string) : request :=
  GetCss (family_param font_family default_weights).

Module SamplesLocal.

(** A family whose name contains "light", with two override files. *)
Definition w_lightning : world :=
  World (list_to_map [ ("fonts/Lightning.ttf", "plain");
                       ("fonts/Lightning-Bold.ttf", "bold") ]) [].

(** A family with the three files that compete for the regular weight. *)
Definition w_nrt : world :=
  World (list_to_map [ ("fonts/NRT-Reg.ttf", "reg");
                       ("fonts/NRT-Regular.ttf", "regular");
                       ("fonts/NRT.ttf", "plain");
                       ("fonts/NRT-Bd.ttf", "bd") ]) [].

End SamplesLocal.

(** ** Closest weight, as the specification words it

    The entry with the smallest distance to the requested weight, the lower
    weight winning a tie. *)

Definition nearer_or_lower (weight a b : Z) : bool :=
  (Z.abs (a - weight) <? Z.abs (b - weight)) ||
  ((Z.abs (a - weight) =? Z.abs (b - weight)) && (a <? b)).

Definition spec_closest_weight (weight_url_map : list (Z * string)) (weight : Z)
  : option Z :=
  match Dict.keys weight_url_map with
  | [] => None
  | k :: ks =>
      Some (foldl (λ best x, if nearer_or_lower weight x best then x else best)
                  k ks)
  end.

Definition spec_find_url (weight_url_map : list (Z * string)) (weight : Z)
  : option string :=
  match Dict.get weight weight_url_map with
  | Some u => Some u
  | None =>
      match spec_closest_weight weight_url_map weight with
      | Some c => Dict.get c weight_url_map
      | None => None
      end
  end.

Module SamplesTie.

(** A stylesheet that lists weight 500 before weight 300. *)
Definition css_500_300 : string :=
  "@font-face { font-weight: 500; src: url(https://fonts.example/medium.woff2); } "
  +:+ "@font-face { font-weight: 300; src: url(https://fonts.example/light.woff2); }".

End SamplesTie.

(** ** The parts of a cache file name *)

Definition weight_keys : list string := ["light"; "regular"; "bold"].
Definition font_exts : list string := ["woff2"; "ttf"].

Definition name_tail (weight_key ext : string) : string :=
  "_" +:+ weight_key +:+ "." +:+ ext.

(** ** What one turn of the download loop works on *)

Definition weight_key_of (weight : Z) : string :=
  default "regular" (Dict.get weight weight_map).

(** The cache file of a requested weight, when an address is assigned. *)
Definition target_path (name_safe : string) (weight_url_map : list (Z * string))
    (weight : Z) : option string :=
  match find_url weight_url_map weight with
  | Some url =>
      if PyStr.nonempty url
      then Some (Paths.cache_path
                   (font_filename name_safe (weight_key_of weight) (file_ext url)))
      else None
  | None => None
  end.

(** The requests and the font downloads among some effects. *)
Definition requests_of (evs : list event) : list request :=
  omap (λ e, match e with Fetch r => Some r | _ => None end) evs.

Definition font_fetches (evs : list event) : list string :=
  omap (λ e, match e with Fetch (GetFont u) => Some u | _ => None end) evs.


Module SamplesDisk.


(** The same disk once the cache directory is there: directories can be
    made, and every write of data fails after four bytes. *)
Definition E_cache_full : env :=
  Env (λ _ r, Some (Samples.body_of r))
      (λ _ _ data, if PyStr.nonempty data then Truncated 4 else Written).


End SamplesDisk.

(** ** The scenario of a family that lacks the light weight, as the
    specification words it: Light is the file of Regular and two font
    binaries are downloaded. *)

Definition light_backfilled_two_downloads (E : env) (w : world) : Prop :=
  let r := load_fonts E (Some "Noto Sans JP") w in
  ∃ d, r.1 = Returned (Some d) ∧
       Dict.get "light" d = Dict.get "regular" d ∧
       length (font_fetches (drop (length (history w)) (history r.2))) = 2%nat.

(** ** Calling twice *)

(** The cache files that the download loop works on. *)
Definition needed_paths (name_safe : string) (weight_url_map : list (Z * string))
    (weights : list Z) : list string :=
  omap (target_path name_safe weight_url_map) weights.

(** What the loop registers when every cache file is found. *)
Definition register_cached (name_safe : string)
    (weight_url_map : list (Z * string)) (font_files : list (string * string))
    (weight : Z) : list (string * string) :=
  match target_path name_safe weight_url_map weight with
  | Some path => Dict.set (weight_key_of weight) path font_files
  | None => font_files
  end.

(** The remote stage of [load_fonts], entered after a scan that found no
    override file. *)
Definition remote_stage (E : env) (font_family : string) (w : world)
  : outcome (option (list (string * string))) * world :=
  download_google_font E font_family None
    (World (files w) (history w ++ (Probe <$> local_paths font_family))).

(** The idempotence reading of the cache: the second of two calls makes
    no network request at all. *)
Definition second_call_offline (E : env) (font_family : string) (w : world)
  : Prop :=
  let r1 := load_fonts E (Some font_family) w in
  let r2 := load_fonts E (Some font_family) r1.2 in
  requests_of (drop (length (history r1.2)) (history r2.2)) = [].

(** Underscores and spaces of a string.  Normalising a family name and
    joining path components keep this number. *)
Fixpoint underscores (s : string) : nat :=
  match s with
  | "" => 0
  | String c s' =>
      (if Ascii.eqb c "_" || Ascii.eqb c " " then 1 else 0) + underscores s'
  end%nat.

Module SamplesFlaky.

(** Font downloads fail until ten effects have happened; the catalog is
    always answered. *)
Definition E_flaky : env :=
  Env (λ h r, match r with
              | GetCss _ => Some Samples.css_400_700
              | GetFont u => if (length h <? 10)%nat then None
                             else Some (Samples.body_of r)
              end)
      (λ _ _ _, Written).

End SamplesFlaky.

(** ** One turn of the download loop, as a relation

    [turn name_safe weight_url_map weight font_files w r] lists what a turn
    for [weight] can make of the dictionary [font_files] and the world [w]:
    nothing when no address is assigned; the registration of a cache file
    that is found; a failed request; a download written to the cache; a
    write that fails, with or without a file left behind. *)

Inductive turn (name_safe : string) (weight_url_map : list (Z * string))
    (weight : Z) (font_files : list (string * string)) (w : world)
  : list (string * string) * world → Prop :=
  | turn_skip :
      target_path name_safe weight_url_map weight = None →
      turn name_safe weight_url_map weight font_files w (font_files, w)
  | turn_cached path :
      target_path name_safe weight_url_map weight = Some path →
      is_Some (files w !! path) →
      turn name_safe weight_url_map weight font_files w
        (Dict.set (weight_key_of weight) path font_files,
         World (files w) (history w ++ [Probe path]))
  | turn_request_failed path url :
      target_path name_safe weight_url_map weight = Some path →
      find_url weight_url_map weight = Some url →
      files w !! path = None →
      turn name_safe weight_url_map weight font_files w
        (font_files,
         World (files w) (history w ++ [Probe path; Fetch (GetFont url)]))
  | turn_written path url content :
      target_path name_safe weight_url_map weight = Some path →
      find_url weight_url_map weight = Some url →
      files w !! path = None →
      turn name_safe weight_url_map weight font_files w
        (Dict.set (weight_key_of weight) path font_files,
         World (<[path := content]> (files w))
           (history w ++ [Probe path; Fetch (GetFont url); Store path]))
  | turn_write_failed path url fs :
      target_path name_safe weight_url_map weight = Some path →
      find_url weight_url_map weight = Some url →
      files w !! path = None →
      fs = files w ∨ (∃ partial, fs = <[path := partial]> (files w)) →
      turn name_safe weight_url_map weight font_files w
        (font_files,
         World fs (history w ++ [Probe path; Fetch (GetFont url); Store path])).


(** The keys of a dictionary are weight keys, each once. *)
Definition well_keyed (d : list (string * string)) : Prop :=
  NoDup (Dict.keys d) ∧ Forall (λ k, k ∈ weight_keys) (Dict.keys d).

Module SamplesCache.

(** The regular weight is already cached, with a content of its own. *)
Definition w_regular_cached : world :=
  World (list_to_map [ ("fonts/cache/noto_sans_jp_regular.woff2", "older") ]) [].

End SamplesCache.

(** ** The back-fill rule

    The entry of a weight after back-filling: its own file when it has
    one, otherwise the file of Regular, otherwise the first file found. *)

Definition backfill_rule (d : list (string * string)) (key : string)
  : option string :=
  match Dict.get key d with
  | Some path => Some path
  | None =>
      match Dict.get "regular" d with
      | Some regular => Some regular
      | None => head (Dict.values d)
      end
  end.

Module SamplesOverride.

(** Only the bold file of a family is installed. *)
Definition w_only_bold : world :=
  World (list_to_map [ ("fonts/Inter-Bold.ttf", "bold bytes") ]) [].

End SamplesOverride.

Module SamplesDown.

(** The catalog is answered but no font can be downloaded. *)
Definition E_fonts_down : env :=
  Env (λ _ r, match r with
              | GetCss _ => Some Samples.css_400_700
              | GetFont _ => None
              end)
      (λ _ _ _, Written).

End SamplesDown.

Module SamplesCss.

(** A stylesheet with two blocks for weight 400, one per character set,
    as the catalog service sends them. *)
Definition block_cyrillic : string :=
  " font-weight: 400; src: url(https://fonts.example/s/cyrillic.woff2); } ".
Definition block_latin : string :=
  " font-weight: 400; src: url(https://fonts.example/s/latin.woff2); }".
Definition css_two_subsets : string :=
  "@font-face {" +:+ block_cyrillic +:+ "@font-face {" +:+ block_latin.

(** An answer that is no stylesheet. *)
Definition E_html : env :=
  Env (λ _ _, Some "<html><body>Not a stylesheet</body></html>")
      (λ _ _ _, Written).

End SamplesCss.

(** ** The cache directory

    [cache_dir_made E h] tells whether the [mkdir] of line 30, reached
    after the effects [h], returns. *)

Definition cache_dir_made (E : env) (h : list event) : bool :=
  match disk E h Paths.cache_dir "" with Written => true | _ => false end.

Module SamplesDir.



End SamplesDir.


(** ** Where the paths of a result come from *)

(** A cache file of a family: one of its three weight keys with one of
    the two extensions. *)
Definition cache_file_of (font_family path : string) : Prop :=
  ∃ key ext,
    key ∈ weight_keys ∧ ext ∈ font_exts ∧
    path = Paths.cache_path
             (font_filename (font_name_safe font_family) key ext).

(** * Properties *)

(** Case analysis on the membership [H : x ∈ [a; b; ...]]: [tac] closes the
    goal for each element in turn. *)
Ltac each_elem H tac :=
  repeat (apply elem_of_cons in H as [-> | H]; [tac|]);
  try (by apply elem_of_nil in H).

(** ** Strings *)

Module PyStrFacts.
Import PyStr.

Lemma str_app_nil_l (t : string) : "" +:+ t = t.
Proof. reflexivity. Qed.

Lemma str_app_cons (c : ascii) (s t : string) :
  String c s +:+ t = String c (s +:+ t).
Proof. reflexivity. Qed.

Lemma str_length_app (a b : string) :
  String.length (a +:+ b) = (String.length a + String.length b)%nat.
Proof. induction a as [|x a IH]; [done|]. rewrite str_app_cons. simpl. lia. Qed.

Lemma lower_app (a b : string) : lower (a +:+ b) = lower a +:+ lower b.
Proof.
  induction a as [|x a IH]; [done|].
  rewrite str_app_cons. simpl. by rewrite IH.
Qed.

Lemma startswith_app (p s t : string) :
  startswith p s = true → startswith p (s +:+ t) = true.
Proof.
  revert s. induction p as [|a p IH]; intros [|b s]; simpl; try done.
  intros [-> H]%andb_true_iff. simpl. by apply IH.
Qed.

Lemma contains_cons (n : string) (c : ascii) (h : string) :
  contains n (String c h) = startswith n (String c h) || contains n h.
Proof. reflexivity. Qed.

Lemma contains_app_l (n s t : string) :
  contains n s = true → contains n (s +:+ t) = true.
Proof.
  induction s as [|c s IH].
  - simpl. rewrite orb_false_r. destruct n; [|done]. by destruct t.
  - rewrite str_app_cons, !contains_cons. intros [H|H]%orb_true_iff.
    + apply (startswith_app _ _ t) in H. rewrite str_app_cons in H.
      by rewrite H.
    + rewrite (IH H). apply orb_true_r.
Qed.

Lemma contains_app_r (n s t : string) :
  contains n t = true → contains n (s +:+ t) = true.
Proof.
  intros H. induction s as [|c s IH]; [done|].
  rewrite str_app_cons, contains_cons, IH. apply orb_true_r.
Qed.

End PyStrFacts.

(** ** Dictionaries *)

Module DictFacts.
Section Facts.
Context {K V : Type} `{EqDecision K}.
Implicit Types (d : list (K * V)) (k : K) (v : V).

Lemma get_set_eq d k v : Dict.get k (Dict.set k v d) = Some v.
Proof.
  induction d as [|[k' v'] d IH]; simpl.
  - by rewrite decide_True.
  - destruct (decide (k' = k)) as [->|Hne]; simpl.
    + by rewrite decide_True.
    + by rewrite decide_False.
Qed.

Lemma get_set_ne d k k' v :
  k ≠ k' → Dict.get k' (Dict.set k v d) = Dict.get k' d.
Proof.
  intros Hne. induction d as [|[k0 v0] d IH]; simpl.
  - by rewrite decide_False.
  - destruct (decide (k0 = k)) as [->|Hne0]; simpl.
    + by rewrite !decide_False.
    + by rewrite IH.
Qed.

Lemma mem_true d k : Dict.mem k d = true ↔ is_Some (Dict.get k d).
Proof.
  unfold Dict.mem. destruct (Dict.get k d); split; try done.
Qed.

Lemma mem_false d k : Dict.mem k d = false ↔ Dict.get k d = None.
Proof. unfold Dict.mem. by destruct (Dict.get k d). Qed.

Lemma mem_set_eq d k v : Dict.mem k (Dict.set k v d) = true.
Proof. unfold Dict.mem. by rewrite get_set_eq. Qed.

(** An assignment never removes a key. *)
Lemma mem_set_mono d k k' v :
  Dict.mem k' d = true → Dict.mem k' (Dict.set k v d) = true.
Proof.
  destruct (decide (k = k')) as [->|Hne]; [intros _; apply mem_set_eq|].
  unfold Dict.mem. by rewrite get_set_ne.
Qed.

Lemma get_set d k k' v :
  Dict.get k' (Dict.set k v d) =
    if decide (k = k') then Some v else Dict.get k' d.
Proof.
  case_decide; [subst; apply get_set_eq | by apply get_set_ne].
Qed.

Lemma mem_setdefault_eq d k v : Dict.mem k (Dict.setdefault k v d) = true.
Proof.
  unfold Dict.setdefault. destruct (Dict.mem k d) eqn:Hm; [done|].
  apply mem_set_eq.
Qed.

Lemma mem_setdefault_mono d k k' v :
  Dict.mem k' d = true → Dict.mem k' (Dict.setdefault k v d) = true.
Proof.
  unfold Dict.setdefault. destruct (Dict.mem k d); [done|].
  apply mem_set_mono.
Qed.

(** [setdefault] keeps the value of every key that is present. *)
Lemma get_setdefault_Some d k k' v x :
  Dict.get k' d = Some x → Dict.get k' (Dict.setdefault k v d) = Some x.
Proof.
  intros Hx. unfold Dict.setdefault.
  destruct (Dict.mem k d) eqn:Hm; [done|].
  rewrite get_set. case_decide; [subst|done].
  apply mem_false in Hm. congruence.
Qed.

Lemma not_empty_set d k v : Dict.not_empty (Dict.set k v d) = true.
Proof. destruct d as [|[k' v'] d]; simpl; [done|]. by case_decide. Qed.

Lemma mem_not_empty d k : Dict.mem k d = true → Dict.not_empty d = true.
Proof. by destruct d. Qed.
End Facts.
End DictFacts.

(** ** Computations *)

Lemma bind_eq {A B} (m : IO A) (k : A → IO B) (w : world) :
  bind m k w = k (m w).1 (m w).2.
Proof. unfold bind. by destruct (m w). Qed.

Lemma ret_eq {A} (a : A) (w : world) : ret a w = (a, w).
Proof. reflexivity. Qed.

Lemma returned_eq {A} (m : IO A) (w : world) :
  returned m w = (Returned (m w).1, (m w).2).
Proof. unfold returned. by rewrite bind_eq, ret_eq. Qed.

(** [download_google_font] is its [try] statement when the cache directory
    is made, and raises without any effect when it is not. *)
Lemma download_google_font_cases (E : env) (family : string)
    (weights : option (list Z)) (w : world) :
  download_google_font E family weights w =
    if cache_dir_made E (history w)
    then (Returned (try_download E family weights w).1,
          (try_download E family weights w).2)
    else (Raised, w).
Proof.
  unfold download_google_font, cache_dir_made. rewrite bind_eq.
  unfold mkdir_p at 1 2. cbn [fst snd].
  destruct (disk E (history w) Paths.cache_dir EmptyString);
    by rewrite ?returned_eq, ?ret_eq.
Qed.

(** ** Every result carries the three weights *)

Lemma ensure_regular_mem (ff : list (string * string)) :
  Dict.not_empty ff = true → Dict.mem "regular" (ensure_regular ff) = true.
Proof.
  intros Hne. unfold ensure_regular.
  destruct (Dict.mem "regular" ff) eqn:Hm; simpl; [done|].
  rewrite Hne. destruct ff as [|[k v] ff]; [done|]. simpl Dict.values.
  apply DictFacts.mem_set_eq.
Qed.

Lemma copy_regular_mem (key : string) (d : list (string * string)) :
  Dict.mem "regular" d = true → Dict.mem key (copy_regular key d) = true.
Proof.
  intros Hr. unfold copy_regular. rewrite Hr.
  destruct (Dict.mem key d) eqn:Hk; simpl; [done|].
  apply DictFacts.mem_true in Hr as [r Hr]. rewrite Hr.
  apply DictFacts.mem_set_eq.
Qed.

Lemma copy_regular_mono (key k : string) (d : list (string * string)) :
  Dict.mem k d = true → Dict.mem k (copy_regular key d) = true.
Proof.
  intros Hk. unfold copy_regular.
  destruct (negb (Dict.mem key d) && Dict.mem "regular" d); [|done].
  destruct (Dict.get "regular" d); [|done].
  by apply DictFacts.mem_set_mono.
Qed.

Lemma fill_weights_empty : fill_weights [] = [].
Proof. reflexivity. Qed.

Lemma fill_weights_complete (ff : list (string * string)) :
  Dict.not_empty ff = true → complete (fill_weights ff).
Proof.
  intros Hne. pose proof (ensure_regular_mem ff Hne) as Hr.
  unfold fill_weights, complete. repeat split.
  - by apply copy_regular_mem, copy_regular_mono.
  - by do 2 apply copy_regular_mono.
  - by apply copy_regular_mono, copy_regular_mem.
Qed.

Lemma fill_local_complete (lf : list (string * string)) :
  Dict.not_empty lf = true → complete (fill_local lf).
Proof.
  intros Hne. unfold fill_local, complete.
  destruct (Dict.get "regular" lf) as [base|] eqn:Hr.
  - assert (Dict.mem "regular" lf = true) as Hm
      by (apply DictFacts.mem_true; eauto).
    repeat split.
    + apply DictFacts.mem_setdefault_eq.
    + by do 2 apply DictFacts.mem_setdefault_mono.
    + apply DictFacts.mem_setdefault_mono, DictFacts.mem_setdefault_eq.
  - destruct lf as [|[k v] lf]; [done|]. simpl Dict.values. cbv beta iota.
    simpl foldl. repeat split.
    + apply DictFacts.mem_setdefault_eq.
    + do 2 apply DictFacts.mem_setdefault_mono.
      apply DictFacts.mem_setdefault_eq.
    + apply DictFacts.mem_setdefault_mono, DictFacts.mem_setdefault_eq.
Qed.

Lemma roboto_complete : complete roboto_fonts.
Proof. by repeat split. Qed.

Lemma try_download_complete (E : env) (family : string)
    (weights : option (list Z)) (w : world) (d : list (string * string)) :
  (try_download E family weights w).1 = Some d → complete d.
Proof.
  unfold try_download. rewrite bind_eq.
  destruct (http_get E _ w).1 as [css|]; [|done].
  rewrite bind_eq, ret_eq. cbn [fst].
  set (ff := (foldM _ _ _ _).1).
  destruct (Dict.not_empty (fill_weights ff)) eqn:Hne; [|done].
  intros [= <-]. apply fill_weights_complete.
  destruct ff; [by rewrite fill_weights_empty in Hne | done].
Qed.

Lemma download_google_font_complete (E : env) (family : string)
    (weights : option (list Z)) (w : world) (d : list (string * string)) :
  (download_google_font E family weights w).1 = Returned (Some d) → complete d.
Proof.
  rewrite download_google_font_cases.
  destruct (cache_dir_made E (history w)); [|done].
  intros [= Hd]. by apply (try_download_complete _ _ _ _ _ Hd).
Qed.

Lemma load_roboto_complete (w : world) (d : list (string * string)) :
  (returned load_roboto w).1 = Returned (Some d) → complete d.
Proof.
  rewrite returned_eq. unfold load_roboto. rewrite bind_eq, ret_eq. cbn [fst].
  destruct (all_exist _ w).1; [|done].
  intros [= <-]. apply roboto_complete.
Qed.

(** C5. Whatever stage answers (local override, remote download or the
    bundled default), a result of [load_fonts] other than [None] has the
    three keys "light", "regular" and "bold". *)
Theorem load_fonts_complete (E : env) (font_family : option string)
    (w : world) (d : list (string * string)) :
  (load_fonts E font_family w).1 = Returned (Some d) →
  Dict.mem "light" d = true ∧ Dict.mem "regular" d = true ∧
  Dict.mem "bold" d = true.
Proof.
  unfold load_fonts.
  destruct (wants_custom font_family); [|apply load_roboto_complete].
  rewrite bind_eq.
  set (scan := foldM _ _ _ w).
  destruct (Dict.not_empty scan.1) eqn:Hlocal.
  - rewrite ret_eq. intros [= <-]. by apply fill_local_complete.
  - rewrite bind_eq.
    destruct (download_google_font E _ None scan.2).1 as [[fonts|]|] eqn:Hdl.
    + destruct (Dict.not_empty fonts).
      * rewrite ret_eq. intros [= <-].
        by apply (download_google_font_complete _ _ _ _ _ Hdl).
      * apply load_roboto_complete.
    + apply load_roboto_complete.
    + by rewrite ret_eq.
Qed.

Lemma load_fonts_complete_witness :
  let d := [ ("light", "fonts/cache/noto_sans_jp_light.woff2");
             ("regular", "fonts/cache/noto_sans_jp_regular.woff2");
             ("bold", "fonts/cache/noto_sans_jp_bold.woff2") ] in
  (load_fonts Samples.E_ok (Some "Noto Sans JP") Samples.w_empty).1
    = Returned (Some d) ∧
  Dict.mem "light" d = true ∧ Dict.mem "regular" d = true ∧
  Dict.mem "bold" d = true.
Proof.
  intros d.
  assert ((load_fonts Samples.E_ok (Some "Noto Sans JP") Samples.w_empty).1
          = Returned (Some d)) as H by (vm_compute; reflexivity).
  split; [exact H|].
  exact (load_fonts_complete Samples.E_ok (Some "Noto Sans JP")
           Samples.w_empty d H).
Defined.

(** ** The effects of the two loops over the file system *)

Lemma record_files (e : event) (w : world) : files (record e w) = files w.
Proof. reflexivity. Qed.

Lemma path_exists_eq (p : string) (w : world) :
  path_exists p w = (present (files w) p, record (Probe p) w).
Proof. reflexivity. Qed.

Lemma scan_pattern_eq (acc : list (string * string)) (pattern : string)
    (w : world) :
  scan_pattern acc pattern w =
    (scan_step (files w) acc pattern, record (Probe (local_path pattern)) w).
Proof.
  unfold scan_pattern, scan_step, override_class.
  rewrite bind_eq, path_exists_eq. cbn [fst snd]. fold (local_path pattern).
  destruct (present (files w) (local_path pattern)); [|done].
  destruct (PyStr.contains "light" _); [done|].
  by destruct (_ || _).
Qed.

Lemma foldM_scan (ps : list string) (acc : list (string * string)) (w : world) :
  foldM scan_pattern acc ps w =
    (foldl (scan_step (files w)) acc ps,
     World (files w) (history w ++ (Probe <$> (local_path <$> ps)))).
Proof.
  revert acc w. induction ps as [|p ps IH]; intros acc w.
  - simpl. rewrite ret_eq, app_nil_r. by destruct w.
  - simpl foldM. rewrite bind_eq, scan_pattern_eq. cbn [fst snd].
    rewrite IH. simpl. by rewrite <- app_assoc.
Qed.

Lemma scan_absent (fs : gmap string string) (ps : list string)
    (acc : list (string * string)) :
  Forall (λ p, fs !! local_path p = None) ps →
  foldl (scan_step fs) acc ps = acc.
Proof.
  induction 1 as [|p ps Hp _ IH]; [done|]. simpl.
  unfold scan_step at 2, present. rewrite Hp.
  rewrite bool_decide_eq_false_2; [done|]. by intros [? ?].
Qed.

(** The loop over the default files reads the file system only, and it
    probes no other path. *)
Lemma all_exist_spec (paths : list string) (w : world) :
  ∃ evs,
    all_exist paths w =
      (forallb (present (files w)) paths,
       World (files w) (history w ++ evs)) ∧
    Forall (λ e, ∃ p, e = Probe p ∧ p ∈ paths) evs.
Proof.
  revert w. induction paths as [|p ps IH]; intros w.
  - exists []. rewrite app_nil_r. split; [by destruct w | constructor].
  - simpl all_exist. rewrite bind_eq, path_exists_eq. cbn [fst snd forallb].
    destruct (present (files w) p) eqn:Hp.
    + destruct (IH (record (Probe p) w)) as (evs & -> & Hevs).
      exists (Probe p :: evs). simpl. rewrite <- app_assoc. split; [done|].
      constructor; [exists p; split; [done | left] |].
      eapply Forall_impl; [exact Hevs|].
      intros e (q & -> & Hq). exists q. split; [done | by right].
    + exists [Probe p]. split; [done|].
      constructor; [|constructor]. exists p. split; [done | left].
Qed.

Lemma load_roboto_spec (w : world) :
  ∃ evs,
    load_roboto w =
      (if forallb (present (files w)) (Dict.values roboto_fonts)
       then Some roboto_fonts else None,
       World (files w) (history w ++ evs)) ∧
    Forall (λ e, ∃ p, e = Probe p ∧ p ∈ Dict.values roboto_fonts) evs.
Proof.
  destruct (all_exist_spec (Dict.values roboto_fonts) w) as (evs & Heq & Hevs).
  exists evs. split; [|done].
  unfold load_roboto. by rewrite bind_eq, Heq, ret_eq.
Qed.

(** With an empty catalog no weight is assigned: the loop over the weights
    has no effect. *)
Lemma download_nothing (E : env) (name_safe : string) (weights : list Z)
    (w : world) :
  foldM (download_weight E name_safe []) [] weights w = ([], w).
Proof.
  induction weights as [|x weights IH]; [done|].
  simpl foldM. by rewrite bind_eq.
Qed.

Lemma download_unavailable (E : env) (family : string) (w : world) :
  net E (history w) (catalog_request family) = None ∨
  (∃ css, net E (history w) (catalog_request family) = Some css ∧
          Css.parse_weight_url_map css = []) →
  try_download E family None w =
    (None, record (Fetch (catalog_request family)) w).
Proof.
  intros H. unfold try_download. rewrite bind_eq.
  unfold http_get at 1 2. cbn [fst snd default].
  fold (catalog_request family).
  destruct H as [-> | (css & -> & Hcat)]; [done|].
  by rewrite Hcat, bind_eq, download_nothing.
Qed.




(** ** No family, or the default family *)

Lemma wants_custom_false (font_family : option string) :
  wants_custom font_family = false ↔
  font_family = None ∨ font_family = Some "" ∨
  ∃ f, font_family = Some f ∧ PyStr.lower f = "roboto".
Proof.
  destruct font_family as [f|]; simpl; [|by split; [left|]].
  destruct f as [|c f]; [by split; [right; left|]|].
  cbn [PyStr.nonempty andb]. rewrite negb_false_iff, String.eqb_eq. split.
  - intros H. right. right. by eexists.
  - by intros [?|[?|(f' & [= <-] & ?)]].
Qed.

(** C8. When no family is requested (absent or empty) or the requested
    family is the bundled default, compared without regard to case,
    [load_fonts] goes straight to the default stage: its result is that of
    the default stage, the file system is left as it was, and its only
    effects are [exists] tests of the three default files, so there is
    neither a scan of the override patterns nor a network request. *)
Theorem default_family_direct (E : env) (font_family : option string)
    (w : world) :
  font_family = None ∨ font_family = Some "" ∨
  (∃ f, font_family = Some f ∧ PyStr.lower f = "roboto") →
  ∃ evs,
    load_fonts E font_family w =
      (Returned (if forallb (present (files w)) (Dict.values roboto_fonts)
                 then Some roboto_fonts else None),
       World (files w) (history w ++ evs)) ∧
    Forall (λ e, ∃ p, e = Probe p ∧
                      p ∈ [ "fonts/Roboto-Bold.ttf"; "fonts/Roboto-Regular.ttf";
                            "fonts/Roboto-Light.ttf" ]) evs.
Proof.
  intros H%wants_custom_false. unfold load_fonts. rewrite H.
  destruct (load_roboto_spec w) as (evs & Heq & Hevs).
  exists evs. by rewrite returned_eq, Heq.
Qed.

Lemma default_family_direct_witness :
  ∃ evs,
    load_fonts Samples.E_ok (Some "RoBoTo") Samples.w_roboto =
      (Returned
         (if forallb (present (files Samples.w_roboto)) (Dict.values roboto_fonts)
          then Some roboto_fonts else None),
       World (files Samples.w_roboto) (history Samples.w_roboto ++ evs)) ∧
    Forall (λ e, ∃ p, e = Probe p ∧
                      p ∈ [ "fonts/Roboto-Bold.ttf"; "fonts/Roboto-Regular.ttf";
                            "fonts/Roboto-Light.ttf" ]) evs.
Proof.
  apply (default_family_direct Samples.E_ok (Some "RoBoTo") Samples.w_roboto).
  right. right. exists "RoBoTo". split; reflexivity.
Defined.

(** ** The scan of the local directory *)

Lemma present_true (fs : gmap string string) (p : string) :
  present fs p = true ↔ is_Some (fs !! p).
Proof. unfold present. apply bool_decide_eq_true. Qed.

(** A pattern of another class leaves the entry of a key as it is. *)
Lemma scan_keeps (fs : gmap string string) (key : string) (ps : list string)
    (acc : list (string * string)) :
  (∀ q, q ∈ ps → present fs (local_path q) = true → override_class q ≠ key) →
  Dict.get key (foldl (scan_step fs) acc ps) = Dict.get key acc.
Proof.
  revert acc. induction ps as [|q ps IH]; intros acc Hps; [done|].
  simpl. rewrite IH by (intros; apply Hps; [by right | done]).
  unfold scan_step. destruct (present fs (local_path q)) eqn:Hq; [|done].
  apply DictFacts.get_set_ne, Hps; [left | done].
Qed.

Lemma scan_last_wins (fs : gmap string string) (acc : list (string * string))
    (l1 l2 : list string) (p : string) :
  present fs (local_path p) = true →
  (∀ q, q ∈ l2 → present fs (local_path q) = true →
        override_class q ≠ override_class p) →
  Dict.get (override_class p) (foldl (scan_step fs) acc (l1 ++ p :: l2))
    = Some (local_path p).
Proof.
  intros Hp Hl2. rewrite foldl_app. simpl. rewrite scan_keeps by done.
  unfold scan_step at 1. rewrite Hp. apply DictFacts.get_set_eq.
Qed.

Lemma scan_only_light (fs : gmap string string) (ps : list string)
    (acc : list (string * string)) (key : string) :
  (∀ q, q ∈ ps → override_class q = "light") →
  key ≠ "light" →
  Dict.get key (foldl (scan_step fs) acc ps) = Dict.get key acc.
Proof.
  intros Hps Hkey. apply scan_keeps. intros q Hq _. rewrite (Hps q Hq).
  congruence.
Qed.

Lemma light_family_patterns (family : string) :
  PyStr.contains "light" (PyStr.lower family) = true →
  ∀ pattern, pattern ∈ local_font_patterns family →
             override_class pattern = "light".
Proof.
  intros Hfam pattern Hin. unfold override_class.
  assert (∃ suffix, pattern = family +:+ suffix) as [suffix ->].
  { unfold local_font_patterns in Hin.
    each_elem Hin ltac:(by eexists). }
  by rewrite PyStrFacts.lower_app, PyStrFacts.contains_app_l.
Qed.

(** C9. An override file is classified by substring tests on its whole
    lower-cased file name: "light" gives the key "light", otherwise "bold"
    or "-bd" gives "bold", otherwise the key is "regular".  Hence, for a
    family whose name contains "light" in any case, every pattern is
    classified "light", and the scan fills no other key. *)
Theorem override_classification (family : string) (w : world) :
  (∀ acc pattern,
     (scan_pattern acc pattern w).1 =
       if present (files w) (local_path pattern)
       then Dict.set (override_class pattern) (local_path pattern) acc
       else acc) ∧
  (PyStr.contains "light" (PyStr.lower family) = true →
   (∀ pattern, pattern ∈ local_font_patterns family →
               override_class pattern = "light") ∧
   (∀ key, key ≠ "light" →
           Dict.get key
             (foldM scan_pattern [] (local_font_patterns family) w).1 = None)).
Proof.
  split.
  - intros acc pattern. by rewrite scan_pattern_eq.
  - intros Hfam. split; [by apply light_family_patterns|].
    intros key Hkey. rewrite foldM_scan. cbn [fst].
    rewrite scan_only_light; [done | | done].
    by apply light_family_patterns.
Qed.

Lemma override_classification_witness :
  (∀ pattern, pattern ∈ local_font_patterns "Lightning" →
              override_class pattern = "light") ∧
  (∀ key, key ≠ "light" →
          Dict.get key
            (foldM scan_pattern [] (local_font_patterns "Lightning")
               SamplesLocal.w_lightning).1 = None).
Proof.
  apply (override_classification "Lightning" SamplesLocal.w_lightning).
  reflexivity.
Defined.

Example lightning_all_light :
  (load_fonts Samples.E_offline (Some "Lightning") SamplesLocal.w_lightning).1 =
    Returned (Some [ ("light", "fonts/Lightning-Bold.ttf");
                     ("regular", "fonts/Lightning-Bold.ttf");
                     ("bold", "fonts/Lightning-Bold.ttf") ]).
Proof. vm_compute. reflexivity. Qed.

(** ** Precedence among override files *)

Lemma fill_local_get (lf : list (string * string)) (key x : string) :
  Dict.get key lf = Some x → Dict.get key (fill_local lf) = Some x.
Proof.
  intros Hx. unfold fill_local.
  destruct (Dict.get "regular" lf) as [base|].
  - by do 2 apply DictFacts.get_setdefault_Some.
  - destruct (Dict.values lf) as [|base ?]; [done|]. simpl.
    by do 3 apply DictFacts.get_setdefault_Some.
Qed.

Lemma load_fonts_local (E : env) (family : string) (w : world) :
  wants_custom (Some family) = true →
  let lf := foldl (scan_step (files w)) [] (local_font_patterns family) in
  Dict.not_empty lf = true →
  (load_fonts E (Some family) w).1 = Returned (Some (fill_local lf)).
Proof.
  intros Hcustom lf Hlf. unfold load_fonts. rewrite Hcustom. cbn [default].
  rewrite bind_eq, foldM_scan. cbn [fst snd]. unfold id. fold lf.
  by rewrite Hlf.
Qed.

(** C10. The scan visits the patterns in the order [-Reg], [-Regular],
    plain, [-Bold], [-Bd], [-Light], and a later file replaces an earlier
    one of the same key: when the file of a pattern exists and no existing
    file of a later pattern has the same key, the result maps that key to
    the file of the pattern. *)
Theorem later_pattern_wins (E : env) (family : string) (w : world)
    (l1 l2 : list string) (p : string) :
  wants_custom (Some family) = true →
  local_font_patterns family = l1 ++ p :: l2 →
  is_Some (files w !! local_path p) →
  (∀ q, q ∈ l2 → is_Some (files w !! local_path q) →
        override_class q ≠ override_class p) →
  ∃ d, (load_fonts E (Some family) w).1 = Returned (Some d) ∧
       Dict.get (override_class p) d = Some (local_path p).
Proof.
  intros Hcustom Hsplit Hp%present_true Hl2.
  assert (Dict.get (override_class p)
            (foldl (scan_step (files w)) [] (local_font_patterns family))
          = Some (local_path p)) as Hget.
  { rewrite Hsplit. apply scan_last_wins; [done|].
    intros q Hq Hpq%present_true. by apply Hl2. }
  eexists. split.
  - apply load_fonts_local; [done|].
    eapply DictFacts.mem_not_empty, DictFacts.mem_true. by eexists.
  - by apply fill_local_get.
Qed.

Lemma later_pattern_wins_witness :
  ∃ d, (load_fonts Samples.E_offline (Some "NRT") SamplesLocal.w_nrt).1
         = Returned (Some d) ∧
       Dict.get (override_class "NRT.ttf") d = Some (local_path "NRT.ttf").
Proof.
  apply (later_pattern_wins Samples.E_offline "NRT" SamplesLocal.w_nrt
           [ "NRT-Reg.ttf"; "NRT-Regular.ttf" ]
           [ "NRT-Bold.ttf"; "NRT-Bd.ttf"; "NRT-Light.ttf" ] "NRT.ttf").
  - reflexivity.
  - reflexivity.
  - by eexists.
  - intros q Hq _.
    each_elem Hq ltac:(by vm_compute).
Defined.

Example nrt_plain_name_wins :
  (load_fonts Samples.E_offline (Some "NRT") SamplesLocal.w_nrt).1 =
    Returned (Some [ ("regular", "fonts/NRT.ttf"); ("bold", "fonts/NRT-Bd.ttf");
                     ("light", "fonts/NRT.ttf") ]).
Proof. vm_compute. reflexivity. Qed.

Lemma suffix_class_not_regular (family suffix word : string) :
  PyStr.contains word (PyStr.lower suffix) = true →
  word = "light" ∨ word = "bold" ∨ word = "-bd" →
  override_class (family +:+ suffix) ≠ "regular".
Proof.
  intros Hword Hcase. unfold override_class.
  rewrite PyStrFacts.lower_app.
  pose proof (PyStrFacts.contains_app_r word (PyStr.lower family) _ Hword) as H.
  destruct Hcase as [-> | [-> | ->]]; rewrite H.
  - done.
  - by destruct (PyStr.contains "light" _).
  - rewrite orb_true_r. by destruct (PyStr.contains "light" _).
Qed.

(** The plain file name [{family}.ttf] has precedence over
    [{family}-Regular.ttf] and [{family}-Reg.ttf] for the key "regular". *)
Lemma plain_name_beats_regular (E : env) (family : string) (w : world) :
  wants_custom (Some family) = true →
  override_class (family +:+ ".ttf") = "regular" →
  is_Some (files w !! local_path (family +:+ ".ttf")) →
  ∃ d, (load_fonts E (Some family) w).1 = Returned (Some d) ∧
       Dict.get "regular" d = Some (local_path (family +:+ ".ttf")).
Proof.
  intros Hcustom Hclass Hp%present_true.
  assert (Dict.get "regular"
            (foldl (scan_step (files w)) [] (local_font_patterns family))
          = Some (local_path (family +:+ ".ttf"))) as Hget.
  { rewrite <- Hclass.
    apply (scan_last_wins _ _ [family +:+ "-Reg.ttf"; family +:+ "-Regular.ttf"]
             [family +:+ "-Bold.ttf"; family +:+ "-Bd.ttf"; family +:+ "-Light.ttf"]);
      [done|].
    intros q Hq _. rewrite Hclass.
    apply elem_of_cons in Hq as [-> | Hq];
      [by apply (suffix_class_not_regular _ _ "bold"); [|auto] |].
    apply elem_of_cons in Hq as [-> | Hq];
      [by apply (suffix_class_not_regular _ _ "-bd"); [|auto] |].
    apply elem_of_cons in Hq as [-> | Hq];
      [by apply (suffix_class_not_regular _ _ "light"); [|auto] |].
    by apply elem_of_nil in Hq. }
  eexists. split.
  - apply load_fonts_local; [done|].
    eapply DictFacts.mem_not_empty, DictFacts.mem_true. by eexists.
  - by apply fill_local_get.
Qed.

(** ** The closest weight *)

(** [py_min_by] returns the first element of least key: the elements
    before it have a greater key, the elements after it no smaller one. *)
Lemma py_min_by_first (f : Z → Z) (xs : list Z) (l1 mid : list Z) (x : Z) :
  (∀ k, k ∈ l1 → f x < f k) →
  (∀ k, k ∈ mid → f x ≤ f k) →
  ∃ l1' l2',
    l1 ++ x :: mid ++ xs = l1' ++ py_min_by f x xs :: l2' ∧
    (∀ k, k ∈ l1' → f (py_min_by f x xs) < f k) ∧
    (∀ k, k ∈ l2' → f (py_min_by f x xs) ≤ f k).
Proof.
  revert l1 mid x. induction xs as [|y ys IH]; intros l1 mid x Hl1 Hmid.
  - exists l1, mid. by rewrite app_nil_r.
  - simpl. destruct (Z.ltb_spec (f y) (f x)) as [Hlt | Hge].
    + destruct (IH (l1 ++ x :: mid) [] y) as (l1' & l2' & Heq & H1 & H2).
      * intros k [Hk | Hk]%elem_of_app.
        -- specialize (Hl1 k Hk). lia.
        -- apply elem_of_cons in Hk as [-> | Hk]; [done|].
           specialize (Hmid k Hk). lia.
      * intros k Hk. by apply elem_of_nil in Hk.
      * exists l1', l2'. split; [|done].
        rewrite <- Heq. by rewrite <- !app_assoc.
    + destruct (IH l1 (mid ++ [y]) x) as (l1' & l2' & Heq & H1 & H2).
      * done.
      * intros k [Hk | Hk]%elem_of_app; [by apply Hmid|].
        apply list_elem_of_singleton in Hk as ->. lia.
      * exists l1', l2'. split; [|done].
        rewrite <- Heq. by rewrite <- !app_assoc.
Qed.

Lemma get_of_key {V} (d : list (Z * V)) (k : Z) :
  k ∈ Dict.keys d → is_Some (Dict.get k d).
Proof.
  induction d as [|[k' v] d IH]; simpl.
  - by intros ?%elem_of_nil.
  - intros [-> | Hk]%elem_of_cons; case_decide;
      try done; try (by eexists); by apply IH.
Qed.

(** C4, as the code has it.  When the catalog is not empty and has no entry
    for the requested weight, the entry used is one of least distance to the
    requested weight; among several of least distance it is the one that
    comes first in the catalog, that is, the one whose weight was parsed
    first.  For the catalog {100: urlA, 900: urlB} and the weight 400 this
    is urlA in either order. *)
Theorem closest_weight_first (weight_url_map : list (Z * string)) (weight : Z) :
  (weight_url_map ≠ [] → Dict.get weight weight_url_map = None →
   ∃ c u l1 l2,
     find_url weight_url_map weight = Some u ∧
     Dict.get c weight_url_map = Some u ∧
     Dict.keys weight_url_map = l1 ++ c :: l2 ∧
     (∀ k, k ∈ l1 → Z.abs (c - weight) < Z.abs (k - weight)) ∧
     (∀ k, k ∈ l2 → Z.abs (c - weight) ≤ Z.abs (k - weight))) ∧
  (∀ urlA urlB,
     find_url [(100, urlA); (900, urlB)] 400 = Some urlA ∧
     find_url [(900, urlB); (100, urlA)] 400 = Some urlA).
Proof.
  split; [|done].
  intros Hne Hget. unfold find_url, closest_weight. rewrite Hget.
  destruct weight_url_map as [|[k0 u0] rest] eqn:Hmap; [done|].
  rewrite <- Hmap in *. cbn [truthy negb andb].
  assert (Dict.not_empty weight_url_map = true) as -> by by rewrite Hmap.
  assert (Dict.keys weight_url_map = k0 :: Dict.keys rest) as Hkeys
    by by rewrite Hmap.
  rewrite Hkeys.
  set (f := λ x, Z.abs (x - weight)).
  destruct (py_min_by_first f (Dict.keys rest) [] [] k0)
    as (l1 & l2 & Heq & H1 & H2);
    [by intros ? ?%elem_of_nil | by intros ? ?%elem_of_nil |].
  simpl in Heq.
  set (c := py_min_by f k0 (Dict.keys rest)) in *.
  assert (is_Some (Dict.get c weight_url_map)) as [u Hu].
  { apply get_of_key. rewrite Hkeys, Heq. apply elem_of_app. right. left. }
  exists c, u, l1, l2. by rewrite Hu.
Qed.

Lemma closest_weight_first_witness :
  ∃ c u l1 l2,
    find_url [(100, "urlA"); (900, "urlB")] 400 = Some u ∧
    Dict.get c [(100, "urlA"); (900, "urlB")] = Some u ∧
    Dict.keys [(100, "urlA"); (900, "urlB")] = l1 ++ c :: l2 ∧
    (∀ k, k ∈ l1 → Z.abs (c - 400) < Z.abs (k - 400)) ∧
    (∀ k, k ∈ l2 → Z.abs (c - 400) ≤ Z.abs (k - 400)).
Proof.
  apply (closest_weight_first [(100, "urlA"); (900, "urlB")] 400).
  - discriminate.
  - reflexivity.
Defined.

(** The tie between 500 and 300 for the weight 400 goes to 500 when the
    stylesheet lists 500 first, not to the lower weight. *)
Lemma tie_goes_to_first_parsed :
  let catalog := Css.parse_weight_url_map SamplesTie.css_500_300 in
  catalog = [ (500, "https://fonts.example/medium.woff2");
              (300, "https://fonts.example/light.woff2") ] ∧
  Dict.get 400 catalog = None ∧
  find_url catalog 400 = Some "https://fonts.example/medium.woff2" ∧
  spec_find_url catalog 400 = Some "https://fonts.example/light.woff2" ∧
  find_url catalog 400 ≠ spec_find_url catalog 400.
Proof. vm_compute. by repeat split. Qed.

(** ** Cache file names *)

Lemma app_nil_r_str (s : string) : s +:+ "" = s.
Proof. induction s as [|c s IH]; [done|]. by rewrite PyStrFacts.str_app_cons, IH. Qed.

(** Two equal concatenations: the shorter tail is a tail of the longer. *)
Lemma app_eq_tail (a b s1 s2 : string) :
  a +:+ s1 = b +:+ s2 →
  (String.length s1 ≤ String.length s2)%nat →
  ∃ t, s2 = t +:+ s1 ∧ a = b +:+ t.
Proof.
  revert b. induction a as [|x a IH]; intros b Heq Hlen.
  - rewrite PyStrFacts.str_app_nil_l in Heq. subst s1.
    rewrite PyStrFacts.str_length_app in Hlen.
    destruct b; [by exists "" | simpl in Hlen; lia].
  - destruct b as [|y b].
    + exists (String x a). by rewrite PyStrFacts.str_app_nil_l in *.
    + rewrite !PyStrFacts.str_app_cons in Heq. injection Heq as -> Heq.
      destruct (IH b Heq Hlen) as (t & -> & ->). by exists t.
Qed.

Lemma endswith_unfold (p s : string) :
  PyStr.endswith p s =
    String.eqb s p ||
    match s with "" => false | String _ s' => PyStr.endswith p s' end.
Proof. by destruct s. Qed.

Lemma endswith_refl (s : string) : PyStr.endswith s s = true.
Proof. by rewrite endswith_unfold, String.eqb_refl. Qed.

Lemma endswith_app (t s : string) : PyStr.endswith s (t +:+ s) = true.
Proof.
  induction t as [|c t IH]; [apply endswith_refl|].
  rewrite PyStrFacts.str_app_cons, endswith_unfold, IH. apply orb_true_r.
Qed.

Lemma app_self_nil (t s : string) : s = t +:+ s → t = "".
Proof.
  intros H%(f_equal String.length). rewrite PyStrFacts.str_length_app in H.
  destruct t; [done | simpl in H; lia].
Qed.

(** No tail is a proper tail of another. *)
Lemma name_tail_table (k1 k2 e1 e2 : string) :
  k1 ∈ weight_keys → k2 ∈ weight_keys → e1 ∈ font_exts → e2 ∈ font_exts →
  PyStr.endswith (name_tail k1 e1) (name_tail k2 e2) = true →
  k1 = k2 ∧ e1 = e2.
Proof.
  unfold weight_keys, font_exts. intros Hk1 Hk2 He1 He2.
  repeat (apply elem_of_cons in Hk1 as [-> | Hk1]);
    try (by apply elem_of_nil in Hk1);
  repeat (apply elem_of_cons in Hk2 as [-> | Hk2]);
    try (by apply elem_of_nil in Hk2);
  repeat (apply elem_of_cons in He1 as [-> | He1]);
    try (by apply elem_of_nil in He1);
  repeat (apply elem_of_cons in He2 as [-> | He2]);
    try (by apply elem_of_nil in He2);
  vm_compute; intros H; by try discriminate H.
Qed.

Lemma font_filename_inj (a b k1 k2 e1 e2 : string) :
  k1 ∈ weight_keys → k2 ∈ weight_keys → e1 ∈ font_exts → e2 ∈ font_exts →
  font_filename a k1 e1 = font_filename b k2 e2 →
  a = b ∧ k1 = k2 ∧ e1 = e2.
Proof.
  intros Hk1 Hk2 He1 He2. unfold font_filename.
  fold (name_tail k1 e1). fold (name_tail k2 e2). intros Heq.
  destruct (Nat.le_ge_cases (String.length (name_tail k1 e1))
                            (String.length (name_tail k2 e2))) as [Hle | Hle].
  - destruct (app_eq_tail _ _ _ _ Heq Hle) as (t & Ht & Hab).
    pose proof (endswith_app t (name_tail k1 e1)) as Hend.
    rewrite <- Ht in Hend.
    destruct (name_tail_table _ _ _ _ Hk1 Hk2 He1 He2 Hend) as [-> ->].
    apply app_self_nil in Ht as ->. by rewrite app_nil_r_str in Hab.
  - symmetry in Heq.
    destruct (app_eq_tail _ _ _ _ Heq Hle) as (t & Ht & Hab).
    pose proof (endswith_app t (name_tail k2 e2)) as Hend.
    rewrite <- Ht in Hend.
    destruct (name_tail_table _ _ _ _ Hk2 Hk1 He2 He1 Hend) as [-> ->].
    apply app_self_nil in Ht as ->. by rewrite app_nil_r_str in Hab.
Qed.

(** C6, as the code has it.  The cache file name is a function of the
    normalised family name (spaces to underscores, then lower case), the
    weight key and the extension, and it separates these triples: two file
    names are equal exactly when the normalised names, the keys and the
    extensions are.  Families with one normalised name share their file
    names. *)
Theorem cache_filename_separates (f1 f2 k1 k2 e1 e2 : string) :
  k1 ∈ ["light"; "regular"; "bold"] → k2 ∈ ["light"; "regular"; "bold"] →
  e1 ∈ ["woff2"; "ttf"] → e2 ∈ ["woff2"; "ttf"] →
  font_filename (font_name_safe f1) k1 e1 =
    font_filename (font_name_safe f2) k2 e2 ↔
  font_name_safe f1 = font_name_safe f2 ∧ k1 = k2 ∧ e1 = e2.
Proof.
  intros Hk1 Hk2 He1 He2. split.
  - by apply font_filename_inj.
  - by intros (-> & -> & ->).
Qed.

Lemma cache_filename_separates_witness :
  font_filename (font_name_safe "Noto Sans JP") "light" "woff2" =
    font_filename (font_name_safe "Open Sans") "light" "woff2" ↔
  font_name_safe "Noto Sans JP" = font_name_safe "Open Sans" ∧
  "light" = "light" ∧ "woff2" = "woff2".
Proof.
  apply (cache_filename_separates "Noto Sans JP" "Open Sans"
           "light" "light" "woff2" "woff2").
  - by left.
  - by left.
  - by left.
  - by left.
Defined.

(** Two different families with one cache file name. *)
Lemma cache_filename_collision :
  ("Open Sans", "regular") ≠ ("open_sans", "regular") ∧
  font_filename (font_name_safe "Open Sans") "regular" "woff2" =
    font_filename (font_name_safe "open_sans") "regular" "woff2".
Proof. split; [discriminate | reflexivity]. Qed.

(** ** One turn of the download loop *)

Section DownloadWeight.
Variable E : env.
Variables (name_safe : string) (weight_url_map : list (Z * string)).
Variables (font_files : list (string * string)) (weight : Z) (w : world).

Lemma target_path_None :
  target_path name_safe weight_url_map weight = None →
  download_weight E name_safe weight_url_map font_files weight w
    = (font_files, w).
Proof.
  unfold target_path, download_weight, truthy.
  destruct (find_url weight_url_map weight) as [url|]; [|done].
  by destruct (PyStr.nonempty url).
Qed.

Lemma target_path_Some (path : string) :
  target_path name_safe weight_url_map weight = Some path →
  ∃ url, find_url weight_url_map weight = Some url ∧
         PyStr.nonempty url = true ∧
         path = Paths.cache_path
                  (font_filename name_safe (weight_key_of weight) (file_ext url)).
Proof.
  unfold target_path.
  destruct (find_url weight_url_map weight) as [url|]; [|done].
  destruct (PyStr.nonempty url) eqn:Hurl; [|done].
  intros [= <-]. by exists url.
Qed.

Lemma download_weight_cached (path : string) :
  target_path name_safe weight_url_map weight = Some path →
  present (files w) path = true →
  download_weight E name_safe weight_url_map font_files weight w =
    (Dict.set (weight_key_of weight) path font_files, record (Probe path) w).
Proof.
  intros (url & Hurl & Hne & ->)%target_path_Some Hp.
  unfold download_weight, truthy. rewrite Hurl, Hne. cbn [default].
  fold (weight_key_of weight). unfold id.
  by rewrite bind_eq, path_exists_eq, Hp.
Qed.

Lemma download_weight_miss (path url : string) :
  find_url weight_url_map weight = Some url →
  target_path name_safe weight_url_map weight = Some path →
  present (files w) path = false →
  let h1 := history w ++ [Probe path] in
  let h2 := history w ++ [Probe path; Fetch (GetFont url)] in
  let h3 := history w ++ [Probe path; Fetch (GetFont url); Store path] in
  download_weight E name_safe weight_url_map font_files weight w =
    match net E h1 (GetFont url) with
    | None => (font_files, World (files w) h2)
    | Some content =>
        match disk E h2 path content with
        | Written =>
            (Dict.set (weight_key_of weight) path font_files,
             World (<[path := content]> (files w)) h3)
        | OpenFailed => (font_files, World (files w) h3)
        | Truncated n =>
            (font_files,
             World (<[path := String.substring 0 n content]> (files w)) h3)
        end
    end.
Proof.
  intros Hfind (url' & Hurl & Hne & ->)%target_path_Some Hp.
  assert (url' = url) as -> by congruence.
  unfold download_weight, truthy. rewrite Hurl, Hne. cbn [default].
  fold (weight_key_of weight). unfold id.
  rewrite bind_eq, path_exists_eq, Hp. cbn [fst snd negb].
  rewrite bind_eq. unfold http_get at 1 2. cbn [fst snd history record].
  destruct (net E _ (GetFont url)) as [content|].
  - rewrite bind_eq. unfold write_bytes at 1 2. cbn [files history record].
    rewrite <- !app_assoc.
    change ([Probe ?p] ++ [Fetch ?r]) with [Probe p; Fetch r].
    destruct (disk E _ _ content); unfold record; cbn [files history];
      by rewrite <- ?app_assoc.
  - rewrite ret_eq. unfold record. cbn [files history].
    by rewrite <- app_assoc.
Qed.

End DownloadWeight.




(** The file left behind is then taken for a cached font: the next call
    returns it without a download. *)
Example truncated_file_is_reused :
  let r1 := load_fonts SamplesDisk.E_cache_full (Some "Noto Sans JP")
              Samples.w_empty in
  let r2 := load_fonts Samples.E_ok (Some "Noto Sans JP")
              (World (files r1.2) []) in
  r1.1 = Returned None ∧
  files r1.2 !! "fonts/cache/noto_sans_jp_regular.woff2" = Some "font" ∧
  (∃ d, r2.1 = Returned (Some d) ∧
        Dict.get "regular" d = Some "fonts/cache/noto_sans_jp_regular.woff2") ∧
  font_fetches (history r2.2) = [].
Proof. vm_compute. repeat split. eexists. by split. Qed.

(** ** Addresses read from a stylesheet *)

Lemma search_url_nonempty (s u : string) :
  Css.search_url s = Some u → PyStr.nonempty u = true.
Proof.
  induction s as [|c s IH].
  - simpl. unfold Css.url_at. simpl. done.
  - simpl Css.search_url. destruct (Css.url_at (String c s)) as [u'|] eqn:Hat.
    + intros [= <-]. unfold Css.url_at in Hat.
      destruct (PyStr.startswith _ _); [|done].
      destruct (_ && _); [|done]. by injection Hat as <-.
    + exact IH.
Qed.

Lemma set_values_Forall {K} `{EqDecision K} (P : string → Prop)
    (d : list (K * string)) (k : K) (v : string) :
  Forall (λ e, P e.2) d → P v → Forall (λ e, P e.2) (Dict.set k v d).
Proof.
  intros Hd Hv. induction Hd as [|[k' v'] d Hx Hd IH]; simpl.
  - by repeat constructor.
  - case_decide; constructor; done.
Qed.

Lemma parse_urls_nonempty (css : string) :
  Forall (λ e, PyStr.nonempty e.2 = true) (Css.parse_weight_url_map css).
Proof.
  unfold Css.parse_weight_url_map.
  generalize (tail (Css.split_font_face css)).
  assert (Forall (λ e : Z * string, PyStr.nonempty e.2 = true) []) as Hacc
    by constructor.
  revert Hacc. generalize (@nil (Z * string)).
  intros acc Hacc blocks. revert acc Hacc.
  induction blocks as [|b blocks IH]; intros acc Hacc; [done|].
  simpl. apply IH. unfold Css.add_block.
  destruct (Css.search_weight b); [|done].
  destruct (Css.search_url b) eqn:Hu; [|done].
  apply (set_values_Forall (λ v, PyStr.nonempty v = true)); [done|].
  by eapply search_url_nonempty.
Qed.

(** ** A family that lacks the light weight *)

Lemma font_fetches_app (a b : list event) :
  font_fetches (a ++ b) = font_fetches a ++ font_fetches b.
Proof. apply omap_app. Qed.

Lemma font_fetches_probes (ps : list string) : font_fetches (Probe <$> ps) = [].
Proof. by induction ps. Qed.

Lemma file_ext_cases (url : string) : file_ext url = "woff2" ∨ file_ext url = "ttf".
Proof. unfold file_ext. destruct (PyStr.endswith _ _); auto. Qed.

Lemma download_weight_fresh (E : env) (name_safe : string)
    (weight_url_map : list (Z * string)) (font_files : list (string * string))
    (weight : Z) (w : world) (path url content : string) :
  find_url weight_url_map weight = Some url →
  target_path name_safe weight_url_map weight = Some path →
  files w !! path = None →
  net E (history w ++ [Probe path]) (GetFont url) = Some content →
  disk E (history w ++ [Probe path; Fetch (GetFont url)]) path content = Written →
  download_weight E name_safe weight_url_map font_files weight w =
    (Dict.set (weight_key_of weight) path font_files,
     World (<[path := content]> (files w))
           (history w ++ [Probe path; Fetch (GetFont url); Store path])).
Proof.
  intros Hfind Htarget Hfile Hnet Hdisk.
  rewrite (download_weight_miss E _ _ _ _ _ path url Hfind Htarget).
  - cbv zeta. by rewrite Hnet, Hdisk.
  - unfold present. rewrite Hfile. apply bool_decide_eq_false_2.
    by intros [? ?].
Qed.

(** The remote stage, once the catalog request is answered. *)
Lemma try_download_eq (E : env) (family css : string) (w : world) :
  net E (history w) (catalog_request family) = Some css →
  try_download E family None w =
    let r := foldM (download_weight E (font_name_safe family)
                      (Css.parse_weight_url_map css))
                   [] default_weights
                   (record (Fetch (catalog_request family)) w) in
    (if Dict.not_empty (fill_weights r.1) then Some (fill_weights r.1) else None,
     r.2).
Proof.
  intros Hnet. unfold try_download. rewrite bind_eq.
  unfold http_get at 1 2. cbn [fst snd default].
  fold (catalog_request family). rewrite Hnet.
  by rewrite bind_eq, ret_eq.
Qed.

(** [load_fonts] when the scan finds no override file. *)
Lemma load_fonts_remote (E : env) (family : string) (w : world) :
  wants_custom (Some family) = true →
  Forall (λ p, files w !! p = None) (local_paths family) →
  load_fonts E (Some family) w =
    let r := download_google_font E family None
               (World (files w) (history w ++ (Probe <$> local_paths family))) in
    match r.1 with
    | Raised => (Raised, r.2)
    | Returned fonts =>
        if match fonts with Some d => Dict.not_empty d | None => false end
        then r else returned load_roboto r.2
    end.
Proof.
  intros Hcustom Habsent. unfold load_fonts. rewrite Hcustom. cbn [default].
  rewrite bind_eq, foldM_scan. cbn [fst snd]. unfold id.
  rewrite scan_absent by (unfold local_paths in Habsent;
                          by rewrite Forall_fmap in Habsent).
  cbn [Dict.not_empty]. rewrite bind_eq. cbv zeta.
  fold (local_paths family).
  destruct (download_google_font E family None _) as [[[d|]|] w1]; [|done..].
  cbn [fst snd]. by destruct (Dict.not_empty d).
Qed.

(** The same once the cache directory is made. *)
Lemma load_fonts_download (E : env) (family : string) (w : world) :
  wants_custom (Some family) = true →
  Forall (λ p, files w !! p = None) (local_paths family) →
  cache_dir_made E (history w ++ (Probe <$> local_paths family)) = true →
  load_fonts E (Some family) w =
    let r := try_download E family None
               (World (files w) (history w ++ (Probe <$> local_paths family))) in
    if match r.1 with Some d => Dict.not_empty d | None => false end
    then (Returned r.1, r.2) else returned load_roboto r.2.
Proof.
  intros Hcustom Habsent Hmade. rewrite load_fonts_remote by done.
  cbv zeta. rewrite download_google_font_cases. cbn [history].
  rewrite Hmade. reflexivity.
Qed.

(** Where every write succeeds, the cache directory is made. *)
Lemma cache_dir_made_written (E : env) (h : list event) :
  (∀ h path data, disk E h path data = Written) → cache_dir_made E h = true.
Proof. intros Hdisk. unfold cache_dir_made. by rewrite Hdisk. Qed.

(** C1, as the code has it.  The family "Noto Sans JP" has no local
    override, the catalog is {400: u1, 700: u2}, the cache is empty and
    every download succeeds.  The weight 300 is served by the closest entry,
    400, and is downloaded from u1 into a cache file of its own: the result
    maps Light, Regular and Bold to three cache files with the contents of
    u1, u1 and u2, and three font binaries are downloaded. *)
Theorem noto_scenario (E : env) (w : world) (css u1 u2 b1 b2 : string) :
  Forall (λ p, files w !! p = None) (local_paths "Noto Sans JP") →
  (∀ h, net E h (catalog_request "Noto Sans JP") = Some css) →
  Css.parse_weight_url_map css = [(400, u1); (700, u2)] →
  (∀ key ext,
     files w !! Paths.cache_path (font_filename "noto_sans_jp" key ext) = None) →
  (∀ h, net E h (GetFont u1) = Some b1) →
  (∀ h, net E h (GetFont u2) = Some b2) →
  (∀ h path data, disk E h path data = Written) →
  let light := "fonts/cache/noto_sans_jp_light." +:+ file_ext u1 in
  let regular := "fonts/cache/noto_sans_jp_regular." +:+ file_ext u1 in
  let bold := "fonts/cache/noto_sans_jp_bold." +:+ file_ext u2 in
  let r := load_fonts E (Some "Noto Sans JP") w in
  r.1 = Returned (Some [("light", light); ("regular", regular); ("bold", bold)]) ∧
  light ≠ regular ∧
  files r.2 !! light = Some b1 ∧
  files r.2 !! regular = Some b1 ∧
  files r.2 !! bold = Some b2 ∧
  ∃ evs, history r.2 = history w ++ evs ∧ font_fetches evs = [u1; u1; u2].
Proof.
  intros Hlocal Hcss Hcat Hcache Hf1 Hf2 Hdisk light regular bold r.
  pose proof (parse_urls_nonempty css) as Hurls. rewrite Hcat in Hurls.
  apply Forall_cons in Hurls as [Hu1 Hurls].
  apply Forall_cons in Hurls as [Hu2 _]. cbn [snd] in Hu1, Hu2.
  assert (find_url [(400, u1); (700, u2)] 300 = Some u1) as Hfind300 by done.
  assert (find_url [(400, u1); (700, u2)] 400 = Some u1) as Hfind400.
  { unfold find_url. change (Dict.get 400 _) with (Some u1).
    unfold truthy. by rewrite Hu1. }
  assert (find_url [(400, u1); (700, u2)] 700 = Some u2) as Hfind700.
  { unfold find_url. change (Dict.get 700 _) with (Some u2).
    unfold truthy. by rewrite Hu2. }
  assert (target_path "noto_sans_jp" [(400, u1); (700, u2)] 300 = Some light)
    as Ht300.
  { unfold target_path. rewrite Hfind300, Hu1.
    subst light. by destruct (file_ext_cases u1) as [-> | ->]. }
  assert (target_path "noto_sans_jp" [(400, u1); (700, u2)] 400 = Some regular)
    as Ht400.
  { unfold target_path. rewrite Hfind400, Hu1.
    subst regular. by destruct (file_ext_cases u1) as [-> | ->]. }
  assert (target_path "noto_sans_jp" [(400, u1); (700, u2)] 700 = Some bold)
    as Ht700.
  { unfold target_path. rewrite Hfind700, Hu2.
    subst bold. by destruct (file_ext_cases u2) as [-> | ->]. }
  assert (∀ p, p ∈ [light; regular; bold] → files w !! p = None) as Hfresh.
  { intros p Hp.
    apply elem_of_cons in Hp as [-> | Hp];
      [apply target_path_Some in Ht300 as (? & _ & _ & ->); apply Hcache|].
    apply elem_of_cons in Hp as [-> | Hp];
      [apply target_path_Some in Ht400 as (? & _ & _ & ->); apply Hcache|].
    apply elem_of_cons in Hp as [-> | Hp];
      [apply target_path_Some in Ht700 as (? & _ & _ & ->); apply Hcache|].
    by apply elem_of_nil in Hp. }
  assert (light ≠ regular ∧ light ≠ bold ∧ regular ≠ bold) as (Hlr & Hlb & Hrb).
  { subst light regular bold.
    by destruct (file_ext_cases u1) as [-> | ->],
                (file_ext_cases u2) as [-> | ->]. }
  assert (r = (Returned (Some [("light", light); ("regular", regular); ("bold", bold)]),
               World (<[bold := b2]> (<[regular := b1]> (<[light := b1]> (files w))))
                 (history w ++ (Probe <$> local_paths "Noto Sans JP") ++
                  [Fetch (catalog_request "Noto Sans JP");
                   Probe light; Fetch (GetFont u1); Store light;
                   Probe regular; Fetch (GetFont u1); Store regular;
                   Probe bold; Fetch (GetFont u2); Store bold]))) as Hr.
  { pose (w1 := record (Fetch (catalog_request "Noto Sans JP"))
                  (World (files w)
                     (history w ++ (Probe <$> local_paths "Noto Sans JP")))).
    assert (foldM (download_weight E "noto_sans_jp" [(400, u1); (700, u2)])
              [] [300; 400; 700] w1 =
            ([("light", light); ("regular", regular); ("bold", bold)],
             World (<[bold := b2]> (<[regular := b1]> (<[light := b1]> (files w))))
               (history w1 ++
                [Probe light; Fetch (GetFont u1); Store light;
                 Probe regular; Fetch (GetFont u1); Store regular;
                 Probe bold; Fetch (GetFont u2); Store bold]))) as Hloop.
    { simpl foldM. rewrite bind_eq.
      rewrite (download_weight_fresh E _ _ _ _ _ light u1 b1);
        [|done|done|by apply Hfresh; left|by rewrite Hf1|by rewrite Hdisk].
      cbn [fst snd]. rewrite bind_eq.
      rewrite (download_weight_fresh E _ _ _ _ _ regular u1 b1);
        [|done|done| |by rewrite Hf1|by rewrite Hdisk].
      2:{ cbn [files]. rewrite lookup_insert_ne by done.
          apply Hfresh. right. left. }
      cbn [fst snd]. rewrite bind_eq.
      rewrite (download_weight_fresh E _ _ _ _ _ bold u2 b2);
        [|done|done| |by rewrite Hf2|by rewrite Hdisk].
      2:{ cbn [files]. rewrite !lookup_insert_ne by done.
          apply Hfresh. right. right. left. }
      cbn [fst snd files history]. rewrite ret_eq, <- !app_assoc.
      reflexivity. }
    subst r.
    rewrite load_fonts_download by (done || by apply cache_dir_made_written).
    rewrite (try_download_eq E _ css) by apply Hcss.
    rewrite Hcat. change (font_name_safe "Noto Sans JP") with "noto_sans_jp".
    unfold default_weights. fold w1. cbv zeta. rewrite Hloop.
    cbn [fst snd]. subst w1. unfold record. cbn [files history].
    by rewrite <- !app_assoc. }
  rewrite Hr. cbn [fst snd files history]. repeat split.
  - done.
  - rewrite !lookup_insert_ne by done. apply lookup_insert_eq.
  - rewrite lookup_insert_ne by done. apply lookup_insert_eq.
  - apply lookup_insert_eq.
  - eexists. split; [done|].
    by rewrite font_fetches_app, font_fetches_probes.
Qed.

Lemma noto_scenario_witness :
  let light := "fonts/cache/noto_sans_jp_light." +:+ file_ext Samples.u_regular in
  let regular := "fonts/cache/noto_sans_jp_regular." +:+ file_ext Samples.u_regular in
  let bold := "fonts/cache/noto_sans_jp_bold." +:+ file_ext Samples.u_bold in
  let r := load_fonts Samples.E_ok (Some "Noto Sans JP") Samples.w_empty in
  r.1 = Returned (Some [("light", light); ("regular", regular); ("bold", bold)]) ∧
  light ≠ regular ∧
  files r.2 !! light = Some (Samples.body_of (GetFont Samples.u_regular)) ∧
  files r.2 !! regular = Some (Samples.body_of (GetFont Samples.u_regular)) ∧
  files r.2 !! bold = Some (Samples.body_of (GetFont Samples.u_bold)) ∧
  ∃ evs, history r.2 = history Samples.w_empty ++ evs ∧
         font_fetches evs = [Samples.u_regular; Samples.u_regular; Samples.u_bold].
Proof.
  apply (noto_scenario Samples.E_ok Samples.w_empty Samples.css_400_700
           Samples.u_regular Samples.u_bold).
  - repeat constructor.
  - reflexivity.
  - vm_compute. reflexivity.
  - intros key ext. apply lookup_empty.
  - reflexivity.
  - reflexivity.
  - reflexivity.
Defined.

(** With the catalog {400, 700} and an empty cache, Light is not the file
    of Regular and three font binaries are downloaded, not two. *)
Lemma noto_light_downloaded :
  Css.parse_weight_url_map Samples.css_400_700
    = [(400, Samples.u_regular); (700, Samples.u_bold)] ∧
  ¬ light_backfilled_two_downloads Samples.E_ok Samples.w_empty.
Proof.
  split; [by vm_compute|].
  intros (d & Hd & Hlight & Hcount).
  vm_compute in Hcount. discriminate Hcount.
Qed.

Example noto_three_downloads :
  let r := load_fonts Samples.E_ok (Some "Noto Sans JP") Samples.w_empty in
  (∃ d, r.1 = Returned (Some d) ∧
        Dict.get "light" d = Some "fonts/cache/noto_sans_jp_light.woff2" ∧
        Dict.get "regular" d = Some "fonts/cache/noto_sans_jp_regular.woff2") ∧
  font_fetches (history r.2)
    = [Samples.u_regular; Samples.u_regular; Samples.u_bold].
Proof. vm_compute. split; [|done]. eexists. by repeat split. Qed.

(** ** Cache files and override files never coincide *)

Lemma underscores_app (a b : string) :
  underscores (a +:+ b) = (underscores a + underscores b)%nat.
Proof.
  induction a as [|c a IH]; [done|].
  rewrite PyStrFacts.str_app_cons. simpl. rewrite IH. lia.
Qed.

Lemma underscores_lower (s : string) :
  underscores (PyStr.lower s) = underscores s.
Proof.
  induction s as [|c s IH]; [done|]. simpl. rewrite IH. f_equal.
  by destruct c as [[] [] [] [] [] [] [] []].
Qed.

Lemma underscores_replace (s : string) :
  underscores (PyStr.replace_char " " "_" s) = underscores s.
Proof.
  induction s as [|c s IH]; [done|]. simpl. rewrite IH. f_equal.
  by destruct c as [[] [] [] [] [] [] [] []].
Qed.

Lemma underscores_safe (family : string) :
  underscores (font_name_safe family) = underscores family.
Proof.
  unfold font_name_safe. by rewrite underscores_lower, underscores_replace.
Qed.

Lemma underscores_join (parts : list string) :
  underscores (PyStr.join "/" parts) = sum_list (underscores <$> parts).
Proof.
  induction parts as [|p ps IH]; [done|].
  destruct ps as [|q ps]; [simpl; lia|].
  change (PyStr.join "/" (p :: q :: ps))
    with (p +:+ "/" +:+ PyStr.join "/" (q :: ps)).
  rewrite !underscores_app, IH. simpl. lia.
Qed.

Lemma underscores_split (s : string) :
  sum_list (underscores <$> Paths.split_slash s) = underscores s.
Proof.
  induction s as [|c s IH]; [done|]. simpl Paths.split_slash.
  destruct (Ascii.eqb c "/") eqn:Hc.
  - apply Ascii.eqb_eq in Hc as ->. rewrite fmap_cons. simpl in *. lia.
  - destruct (Paths.split_slash s) as [|piece rest];
      rewrite ?fmap_cons in *; simpl in *; lia.
Qed.

Lemma underscores_components (s : string) :
  sum_list (underscores <$> Paths.components s) = underscores s.
Proof.
  rewrite <- underscores_split. unfold Paths.components.
  induction (Paths.split_slash s) as [|part parts IH]; [done|].
  rewrite filter_cons. destruct (decide (Paths.kept part = true)) as [Hk|Hk].
  - rewrite !fmap_cons. simpl in *. lia.
  - assert (underscores part = 0%nat) as Hzero.
    { apply not_true_is_false in Hk. unfold Paths.kept in Hk.
      destruct part as [|c part]; [done|]. cbn [PyStr.nonempty andb] in Hk.
      apply negb_false_iff, String.eqb_eq in Hk. by rewrite Hk. }
    rewrite !fmap_cons. simpl in *. lia.
Qed.

Lemma underscores_cache_path (name : string) :
  underscores (Paths.cache_path name) = underscores name.
Proof.
  unfold Paths.cache_path.
  destruct (PyStr.startswith "/" name).
  - rewrite underscores_app, underscores_join, underscores_components.
    by destruct (_ && _).
  - rewrite underscores_join. simpl. by rewrite underscores_components.
Qed.

Lemma underscores_local_path (pattern : string) :
  underscores (local_path pattern) = underscores pattern.
Proof.
  unfold local_path, Paths.os_path_join.
  destruct (PyStr.startswith "/" pattern); [done|].
  change (negb (PyStr.nonempty Paths.FONTS_DIR) ||
          PyStr.endswith "/" Paths.FONTS_DIR) with false.
  cbv iota. by rewrite !underscores_app.
Qed.

Lemma local_path_not_cache (family key ext p : string) :
  p ∈ local_paths family →
  p ≠ Paths.cache_path (font_filename (font_name_safe family) key ext).
Proof.
  intros Hp Heq. apply (f_equal underscores) in Heq.
  rewrite underscores_cache_path in Heq. unfold font_filename in Heq.
  rewrite !underscores_app, underscores_safe in Heq.
  unfold local_paths, local_font_patterns in Hp.
  rewrite !fmap_cons in Hp.
  each_elem Hp ltac:(rewrite underscores_local_path, underscores_app in Heq;
                     simpl in Heq; lia).
Qed.

(** ** What a call may change on disk *)

(** A turn of the download loop changes no path but its own cache file. *)
Lemma download_weight_frame (E : env) (name_safe : string)
    (weight_url_map : list (Z * string)) (font_files : list (string * string))
    (weight : Z) (w : world) (p : string) :
  (∀ key ext, p ≠ Paths.cache_path (font_filename name_safe key ext)) →
  files (download_weight E name_safe weight_url_map font_files weight w).2 !! p
    = files w !! p.
Proof.
  intros Hp.
  destruct (target_path name_safe weight_url_map weight) as [path|] eqn:Ht;
    [|by rewrite target_path_None].
  pose proof Ht as (url & Hfind & _ & Hpath)%target_path_Some.
  assert (path ≠ p) as Hne by (rewrite Hpath; intros <-; by eapply Hp).
  destruct (present (files w) path) eqn:Hpres.
  - by rewrite (download_weight_cached E _ _ _ _ _ path).
  - rewrite (download_weight_miss E _ _ _ _ _ path url) by done. cbv zeta.
    destruct (net E _ _) as [content|]; [|done].
    destruct (disk E _ _ _); cbn [snd files]; by rewrite ?lookup_insert_ne.
Qed.

Lemma download_loop_frame (E : env) (name_safe : string)
    (weight_url_map : list (Z * string)) (weights : list Z)
    (font_files : list (string * string)) (w : world) (p : string) :
  (∀ key ext, p ≠ Paths.cache_path (font_filename name_safe key ext)) →
  files (foldM (download_weight E name_safe weight_url_map)
           font_files weights w).2 !! p = files w !! p.
Proof.
  intros Hp. revert font_files w.
  induction weights as [|x weights IH]; intros font_files w; [done|].
  simpl foldM. rewrite bind_eq, IH. by apply download_weight_frame.
Qed.

Lemma try_download_frame (E : env) (family : string) (w : world)
    (p : string) :
  (∀ key ext,
     p ≠ Paths.cache_path (font_filename (font_name_safe family) key ext)) →
  files (try_download E family None w).2 !! p = files w !! p.
Proof.
  intros Hp. unfold try_download. rewrite bind_eq.
  unfold http_get at 1 2. cbn [fst snd default].
  destruct (net E _ _) as [css|]; [|done].
  rewrite bind_eq, ret_eq. cbn [snd]. by rewrite download_loop_frame.
Qed.

Lemma download_google_font_frame (E : env) (family : string) (w : world)
    (p : string) :
  (∀ key ext,
     p ≠ Paths.cache_path (font_filename (font_name_safe family) key ext)) →
  files (download_google_font E family None w).2 !! p = files w !! p.
Proof.
  intros Hp. rewrite download_google_font_cases.
  destruct (cache_dir_made E (history w)); [|done].
  by apply try_download_frame.
Qed.

Lemma load_roboto_files (w : world) : files (load_roboto w).2 = files w.
Proof. by destruct (load_roboto_spec w) as (evs & -> & _). Qed.

Lemma returned_roboto_files (w : world) :
  files (returned load_roboto w).2 = files w.
Proof. rewrite returned_eq. apply load_roboto_files. Qed.

(** A call of [load_fonts] changes no path but the cache files of the
    family. *)
Lemma load_fonts_frame (E : env) (family : string) (w : world) (p : string) :
  (∀ key ext,
     p ≠ Paths.cache_path (font_filename (font_name_safe family) key ext)) →
  files (load_fonts E (Some family) w).2 !! p = files w !! p.
Proof.
  intros Hp. unfold load_fonts.
  destruct (wants_custom (Some family)); [|by rewrite returned_roboto_files].
  cbn [default]. rewrite bind_eq, foldM_scan. cbn [fst snd]. unfold id.
  destruct (Dict.not_empty _); [done|].
  rewrite bind_eq.
  match goal with
  | |- context [download_google_font E family None ?w1] =>
      pose proof (download_google_font_frame E family w1 p Hp) as Hdl;
      destruct (download_google_font E family None w1) as [fonts w2]
  end.
  cbn [fst snd files] in *.
  destruct fonts as [fonts|]; [|done].
  destruct (match fonts with Some d => Dict.not_empty d | None => false end);
    by rewrite ?returned_roboto_files.
Qed.

(** ** The second call *)

Lemma requests_of_app (a b : list event) :
  requests_of (a ++ b) = requests_of a ++ requests_of b.
Proof. apply omap_app. Qed.

Lemma requests_of_probes (ps : list string) : requests_of (Probe <$> ps) = [].
Proof. by induction ps. Qed.

(** When every cache file is there, the loop only looks. *)
Lemma download_loop_cached (E : env) (name_safe : string)
    (weight_url_map : list (Z * string)) (weights : list Z)
    (font_files : list (string * string)) (w : world) :
  Forall (λ p, is_Some (files w !! p))
         (needed_paths name_safe weight_url_map weights) →
  foldM (download_weight E name_safe weight_url_map) font_files weights w =
    (foldl (register_cached name_safe weight_url_map) font_files weights,
     World (files w)
       (history w ++
        (Probe <$> needed_paths name_safe weight_url_map weights))).
Proof.
  revert font_files w.
  induction weights as [|x weights IH]; intros font_files w Hall.
  - simpl. rewrite ret_eq, app_nil_r. by destruct w.
  - simpl foldM. rewrite bind_eq. unfold needed_paths in *. simpl in Hall |- *.
    unfold register_cached at 2.
    destruct (target_path name_safe weight_url_map x) as [path|] eqn:Ht.
    + apply Forall_cons in Hall as [Hpath Hall].
      rewrite (download_weight_cached E _ _ _ _ _ path) by
        (done || by apply present_true).
      cbn [fst snd]. rewrite IH by done. cbn [files history record].
      by rewrite <- app_assoc.
    + rewrite target_path_None by done. cbn [fst snd]. by apply IH.
Qed.

(** When no weight has an address, the loop does nothing. *)
Lemma download_loop_idle (E : env) (name_safe : string)
    (weight_url_map : list (Z * string)) (weights : list Z)
    (font_files : list (string * string)) (w : world) :
  needed_paths name_safe weight_url_map weights = [] →
  foldM (download_weight E name_safe weight_url_map) font_files weights w
    = (font_files, w).
Proof.
  revert font_files w.
  induction weights as [|x weights IH]; intros font_files w Hnone; [done|].
  unfold needed_paths in *. simpl in Hnone.
  destruct (target_path name_safe weight_url_map x) eqn:Ht; [done|].
  simpl foldM. rewrite bind_eq, target_path_None by done. by apply IH.
Qed.

Lemma register_cached_not_empty (name_safe : string)
    (weight_url_map : list (Z * string)) (weights : list Z)
    (font_files : list (string * string)) :
  Dict.not_empty font_files = true ∨
  needed_paths name_safe weight_url_map weights ≠ [] →
  Dict.not_empty
    (foldl (register_cached name_safe weight_url_map) font_files weights) = true.
Proof.
  revert font_files.
  induction weights as [|x weights IH]; intros font_files H.
  - by destruct H.
  - simpl. apply IH. unfold register_cached, needed_paths in *. simpl in H.
    destruct (target_path name_safe weight_url_map x).
    + left. apply DictFacts.not_empty_set.
    + done.
Qed.

Lemma fill_weights_not_empty (font_files : list (string * string)) :
  Dict.not_empty font_files = true →
  Dict.not_empty (fill_weights font_files) = true.
Proof.
  intros H. destruct (fill_weights_complete font_files H) as (Hm & _).
  by eapply DictFacts.mem_not_empty.
Qed.

(** C2, as the code has it.  The first call finds no override file and its
    remote stage succeeds; the catalog answers both calls alike and the
    cache directory is still usable at the second call; after the first
    call every cache file that the catalog assigns exists.  Then the second
    call succeeds and leaves the disk as it is.  Its effects are, in this
    order: the [exists] tests of the override files, the catalog request,
    and one [exists] test for each cache file.  So it makes one network
    request, the catalog request, which comes before any look at the
    cache, and it downloads no font binary. *)
Theorem second_call_catalog_only (E : env) (family css : string) (w : world)
    (d1 : list (string * string)) :
  wants_custom (Some family) = true →
  Forall (λ p, files w !! p = None) (local_paths family) →
  (∀ h, net E h (catalog_request family) = Some css) →
  (remote_stage E family w).1 = Returned (Some d1) →
  let r1 := load_fonts E (Some family) w in
  let cache_files :=
    needed_paths (font_name_safe family)
      (Css.parse_weight_url_map css) default_weights in
  cache_dir_made E (history r1.2 ++ (Probe <$> local_paths family)) = true →
  Forall (λ p, is_Some (files r1.2 !! p)) cache_files →
  r1.1 = Returned (Some d1) ∧
  ∃ d2,
    let evs := (Probe <$> local_paths family) ++
               Fetch (catalog_request family) :: (Probe <$> cache_files) in
    load_fonts E (Some family) r1.2 =
      (Returned (Some d2), World (files r1.2) (history r1.2 ++ evs)) ∧
    requests_of evs = [catalog_request family] ∧
    font_fetches evs = [].
Proof.
  intros Hcustom Hlocal Hcss Hremote r1 cache_files Hmade Hcached.
  set (catalog := Css.parse_weight_url_map css) in *.
  set (name_safe := font_name_safe family) in *.
  (* the first call returns what its remote stage returns *)
  assert (r1 = remote_stage E family w) as Hr1.
  { subst r1. rewrite load_fonts_remote by done. cbv zeta.
    fold (remote_stage E family w). rewrite Hremote.
    destruct (download_google_font_complete E family None _ d1 Hremote)
      as (Hm & _).
    by rewrite (DictFacts.mem_not_empty _ _ Hm). }
  (* some weight has an address *)
  assert (cache_files ≠ []) as Hneeded.
  { intros Hnone. unfold remote_stage in Hremote.
    rewrite download_google_font_cases in Hremote.
    destruct (cache_dir_made E _); [|done]. cbn [fst] in Hremote.
    rewrite (try_download_eq E _ css) in Hremote by apply Hcss.
    cbv zeta in Hremote. fold catalog name_safe in Hremote.
    fold cache_files in Hnone.
    by rewrite download_loop_idle in Hremote. }
  (* the override files are still absent *)
  assert (Forall (λ p, files r1.2 !! p = None) (local_paths family)) as Hlocal'.
  { rewrite Forall_forall in Hlocal |- *. intros p Hp. subst r1.
    rewrite load_fonts_frame; [by apply Hlocal|].
    intros key ext. by apply local_path_not_cache. }
  split; [by rewrite Hr1|].
  rewrite load_fonts_download by done. cbv zeta.
  rewrite (try_download_eq E _ css) by apply Hcss. cbv zeta.
  fold catalog name_safe.
  rewrite download_loop_cached by done. cbn [fst snd files history record].
  fold cache_files.
  rewrite fill_weights_not_empty
    by (apply register_cached_not_empty; by right).
  cbn [fst snd]. rewrite fill_weights_not_empty
    by (apply register_cached_not_empty; by right).
  eexists. split; [|split].
  - by rewrite <- !app_assoc.
  - rewrite requests_of_app, requests_of_probes.
    change (requests_of (Fetch ?r :: ?l)) with (r :: requests_of l).
    by rewrite requests_of_probes.
  - rewrite font_fetches_app, font_fetches_probes.
    change (font_fetches (Fetch (catalog_request family) :: ?l))
      with (font_fetches l).
    by rewrite font_fetches_probes.
Qed.

Lemma second_call_catalog_only_witness :
  let d1 := [ ("light", "fonts/cache/noto_sans_jp_light.woff2");
              ("regular", "fonts/cache/noto_sans_jp_regular.woff2");
              ("bold", "fonts/cache/noto_sans_jp_bold.woff2") ] in
  let r1 := load_fonts Samples.E_ok (Some "Noto Sans JP") Samples.w_empty in
  let cache_files :=
    needed_paths (font_name_safe "Noto Sans JP")
      (Css.parse_weight_url_map Samples.css_400_700) default_weights in
  r1.1 = Returned (Some d1) ∧
  ∃ d2,
    let evs := (Probe <$> local_paths "Noto Sans JP") ++
               Fetch (catalog_request "Noto Sans JP")
                 :: (Probe <$> cache_files) in
    load_fonts Samples.E_ok (Some "Noto Sans JP") r1.2 =
      (Returned (Some d2), World (files r1.2) (history r1.2 ++ evs)) ∧
    requests_of evs = [catalog_request "Noto Sans JP"] ∧
    font_fetches evs = [].
Proof.
  intros d1.
  apply (second_call_catalog_only Samples.E_ok "Noto Sans JP"
           Samples.css_400_700 Samples.w_empty d1).
  - reflexivity.
  - repeat constructor.
  - reflexivity.
  - vm_compute. reflexivity.
  - reflexivity.
  - vm_compute. repeat constructor; by eexists.
Defined.

(** After a first call that succeeds through the remote stage, the second
    call still asks the network for the catalog. *)
Lemma second_call_asks_catalog :
  (∃ d, (remote_stage Samples.E_ok "Noto Sans JP" Samples.w_empty).1
          = Returned (Some d)) ∧
  ¬ second_call_offline Samples.E_ok "Noto Sans JP" Samples.w_empty.
Proof.
  split.
  - vm_compute. by eexists.
  - unfold second_call_offline. vm_compute. discriminate.
Qed.

Example second_call_requests :
  let r1 := load_fonts Samples.E_ok (Some "Noto Sans JP") Samples.w_empty in
  let r2 := load_fonts Samples.E_ok (Some "Noto Sans JP") r1.2 in
  requests_of (drop (length (history r1.2)) (history r2.2))
    = [GetCss "Noto Sans JP:wght@300;400;700"] ∧
  r2.1 = r1.1 ∧ files r2.2 = files r1.2.
Proof. vm_compute. by repeat split. Qed.

(** A first call can succeed although one download failed: Light is then
    the file of Regular, its cache file is missing, and the second call
    downloads it. *)
Example retry_after_partial_failure :
  let r1 := load_fonts SamplesFlaky.E_flaky (Some "Noto Sans JP")
              Samples.w_empty in
  let r2 := load_fonts SamplesFlaky.E_flaky (Some "Noto Sans JP") r1.2 in
  r1.1 = Returned
           (Some [ ("regular", "fonts/cache/noto_sans_jp_regular.woff2");
                   ("bold", "fonts/cache/noto_sans_jp_bold.woff2");
                   ("light", "fonts/cache/noto_sans_jp_regular.woff2") ]) ∧
  files r1.2 !! "fonts/cache/noto_sans_jp_light.woff2" = None ∧
  font_fetches (drop (length (history r1.2)) (history r2.2))
    = [Samples.u_regular] ∧
  r2.1 = Returned
           (Some [ ("light", "fonts/cache/noto_sans_jp_light.woff2");
                   ("regular", "fonts/cache/noto_sans_jp_regular.woff2");
                   ("bold", "fonts/cache/noto_sans_jp_bold.woff2") ]).
Proof. vm_compute. by repeat split. Qed.

(** * Further properties of the module *)

(** ** Turns of the download loop *)

Lemma download_weight_turn (E : env) (name_safe : string)
    (weight_url_map : list (Z * string)) (font_files : list (string * string))
    (weight : Z) (w : world) :
  turn name_safe weight_url_map weight font_files w
    (download_weight E name_safe weight_url_map font_files weight w).
Proof.
  destruct (target_path name_safe weight_url_map weight) as [path|] eqn:Ht.
  - pose proof Ht as (url & Hfind & _ & _)%target_path_Some.
    destruct (present (files w) path) eqn:Hp.
    + rewrite (download_weight_cached E _ _ _ _ _ path) by done.
      apply turn_cached; [done | by apply present_true].
    + assert (files w !! path = None) as Hnone.
      { destruct (files w !! path) eqn:Hf; [|done].
        assert (present (files w) path = true) as Hp'
          by (apply present_true; rewrite Hf; by eexists).
        congruence. }
      rewrite (download_weight_miss E _ _ _ _ _ path url) by done. cbv zeta.
      destruct (net E _ _) as [content|]; [|by eapply turn_request_failed].
      destruct (disk E _ _ _).
      * by eapply turn_written.
      * eapply turn_write_failed; eauto.
      * eapply turn_write_failed; eauto.
  - rewrite target_path_None by done. by apply turn_skip.
Qed.

(** An invariant of the turns is an invariant of the loop. *)
Lemma download_loop_inv (E : env) (name_safe : string)
    (weight_url_map : list (Z * string))
    (P : list (string * string) → world → Prop) (weights : list Z) :
  (∀ weight font_files w r,
     weight ∈ weights →
     turn name_safe weight_url_map weight font_files w r →
     P font_files w → P r.1 r.2) →
  ∀ font_files w,
    P font_files w →
    P (foldM (download_weight E name_safe weight_url_map) font_files weights w).1
      (foldM (download_weight E name_safe weight_url_map) font_files weights w).2.
Proof.
  induction weights as [|x weights IH]; intros Hstep font_files w HP; [done|].
  simpl foldM. rewrite bind_eq. apply IH.
  - intros weight ff w' r Hin. apply Hstep. by right.
  - eapply Hstep; [by left | apply download_weight_turn | done].
Qed.

(** ** A call never changes a file that exists *)

Lemma turn_keeps_file (name_safe : string) (weight_url_map : list (Z * string))
    (weight : Z) (font_files : list (string * string)) (w : world)
    (r : list (string * string) * world) (p c : string) :
  turn name_safe weight_url_map weight font_files w r →
  files w !! p = Some c → files r.2 !! p = Some c.
Proof.
  intros Hturn Hp. destruct Hturn as
    [ _ | path _ _ | path url _ _ _ | path url content _ _ Hnone
    | path url fs _ _ Hnone Hfs ]; cbn [snd files]; try done.
  - rewrite lookup_insert_ne; [done | congruence].
  - destruct Hfs as [-> | [partial ->]]; [done|].
    rewrite lookup_insert_ne; [done | congruence].
Qed.

Lemma try_download_keeps (E : env) (family : string)
    (weights : option (list Z)) (w : world) (p c : string) :
  files w !! p = Some c →
  files (try_download E family weights w).2 !! p = Some c.
Proof.
  intros Hp. unfold try_download. rewrite bind_eq.
  unfold http_get at 1 2. cbn [fst snd].
  destruct (net E _ _) as [css|]; [|done].
  rewrite bind_eq, ret_eq. cbn [snd].
  apply (download_loop_inv E _ _ (λ _ w', files w' !! p = Some c)); [|done].
  intros weight ff w' r _ Hturn. by eapply turn_keeps_file.
Qed.

Lemma download_google_font_keeps (E : env) (family : string)
    (weights : option (list Z)) (w : world) (p c : string) :
  files w !! p = Some c →
  files (download_google_font E family weights w).2 !! p = Some c.
Proof.
  intros Hp. rewrite download_google_font_cases.
  destruct (cache_dir_made E (history w)); [|done].
  by apply try_download_keeps.
Qed.

(** X1. [load_fonts] never removes or rewrites a file: a path that has a
    content before the call has the same content after it. *)
Theorem existing_files_kept (E : env) (font_family : option string)
    (w : world) (p c : string) :
  files w !! p = Some c →
  files (load_fonts E font_family w).2 !! p = Some c.
Proof.
  intros Hp. unfold load_fonts.
  destruct (wants_custom font_family); [|by rewrite returned_roboto_files].
  rewrite bind_eq, foldM_scan. cbn [fst snd].
  destruct (Dict.not_empty _); [done|].
  rewrite bind_eq.
  match goal with
  | |- context [download_google_font E ?f None ?w1] =>
      pose proof (download_google_font_keeps E f None w1 p c Hp) as Hdl;
      destruct (download_google_font E f None w1) as [fonts w2]
  end.
  cbn [fst snd] in *.
  destruct fonts as [fonts|]; [|done].
  destruct (match fonts with Some d => Dict.not_empty d | None => false end);
    by rewrite ?returned_roboto_files.
Qed.

Lemma existing_files_kept_witness :
  files (load_fonts Samples.E_ok (Some "Noto Sans JP")
           SamplesCache.w_regular_cached).2
    !! "fonts/cache/noto_sans_jp_regular.woff2" = Some "older".
Proof.
  apply (existing_files_kept Samples.E_ok (Some "Noto Sans JP")
           SamplesCache.w_regular_cached).
  reflexivity.
Defined.

(** The remote stage, for any list of weights. *)
Lemma try_download_run (E : env) (family : string)
    (weights : option (list Z)) (w : world) :
  let ws := default default_weights weights in
  let request := GetCss (family_param family ws) in
  try_download E family weights w =
    match net E (history w) request with
    | None => (None, record (Fetch request) w)
    | Some css =>
        let r := foldM (download_weight E (font_name_safe family)
                          (Css.parse_weight_url_map css))
                       [] ws (record (Fetch request) w) in
        (if Dict.not_empty (fill_weights r.1)
         then Some (fill_weights r.1) else None, r.2)
    end.
Proof.
  intros ws request. unfold try_download. rewrite bind_eq.
  unfold http_get at 1 2. cbn [fst snd]. fold ws request.
  destruct (net E (history w) request) as [css|]; [|done].
  by rewrite bind_eq, ret_eq.
Qed.

(** ** Every returned path names a file *)















(** ** The keys of a result *)

Lemma mem_keys {V} (d : list (string * V)) (k : string) :
  Dict.mem k d = true ↔ k ∈ Dict.keys d.
Proof.
  unfold Dict.mem, Dict.keys. induction d as [|[k' v] d IH]; simpl.
  - split; [done | by intros ?%elem_of_nil].
  - case_decide as Hk.
    + subst. split; [intros _; left | done].
    + rewrite IH. split; [by right|].
      by intros [? | ?]%elem_of_cons.
Qed.

Lemma keys_set {V} (d : list (string * V)) (k : string) (v : V) :
  Dict.keys (Dict.set k v d) =
    if Dict.mem k d then Dict.keys d else Dict.keys d ++ [k].
Proof.
  induction d as [|[k' v'] d IH]; [done|].
  change (Dict.set k v ((k', v') :: d))
    with (if decide (k' = k) then (k', v) :: d else (k', v') :: Dict.set k v d).
  change (Dict.mem k ((k', v') :: d))
    with (match (if decide (k' = k) then Some v' else Dict.get k d)
          with Some _ => true | None => false end).
  case_decide; [done|].
  change (Dict.keys ((k', v') :: Dict.set k v d))
    with (k' :: Dict.keys (Dict.set k v d)).
  rewrite IH. unfold Dict.mem. by destruct (Dict.get k d).
Qed.

Lemma well_keyed_set (d : list (string * string)) (k v : string) :
  k ∈ weight_keys → well_keyed d → well_keyed (Dict.set k v d).
Proof.
  intros Hk [Hnd Hall]. unfold well_keyed. rewrite keys_set.
  destruct (Dict.mem k d) eqn:Hm; [done|]. split.
  - apply NoDup_app. split_and!; [done | | apply NoDup_singleton].
    intros x Hx ->%list_elem_of_singleton.
    apply mem_keys in Hx. congruence.
  - apply Forall_app. split; [done|]. by constructor.
Qed.

Lemma well_keyed_setdefault (d : list (string * string)) (k v : string) :
  k ∈ weight_keys → well_keyed d → well_keyed (Dict.setdefault k v d).
Proof.
  intros Hk Hd. unfold Dict.setdefault.
  destruct (Dict.mem k d); [done | by apply well_keyed_set].
Qed.

Lemma weight_key_of_elem (weight : Z) : weight_key_of weight ∈ weight_keys.
Proof.
  unfold weight_key_of, weight_map, weight_keys. simpl.
  repeat case_decide; simpl; set_solver.
Qed.

Lemma override_class_elem (pattern : string) :
  override_class pattern ∈ weight_keys.
Proof.
  unfold override_class, weight_keys.
  destruct (PyStr.contains "light" _); [set_solver|].
  destruct (_ || _); set_solver.
Qed.

Lemma fill_weights_well_keyed (font_files : list (string * string)) :
  well_keyed font_files → well_keyed (fill_weights font_files).
Proof.
  intros Hff.
  assert (well_keyed (ensure_regular font_files)) as H1.
  { unfold ensure_regular. destruct (_ && _); [|done].
    destruct (Dict.values font_files); [done|].
    apply well_keyed_set; [|done]. unfold weight_keys. set_solver. }
  assert (∀ key d, key ∈ weight_keys → well_keyed d →
                   well_keyed (copy_regular key d)) as H2.
  { intros key d Hkey Hd. unfold copy_regular. destruct (_ && _); [|done].
    destruct (Dict.get "regular" d); [|done]. by apply well_keyed_set. }
  unfold fill_weights.
  apply H2; [unfold weight_keys; set_solver|].
  apply H2; [unfold weight_keys; set_solver | done].
Qed.

Lemma fill_local_well_keyed (local_fonts : list (string * string)) :
  well_keyed local_fonts → well_keyed (fill_local local_fonts).
Proof.
  intros Hlf. unfold fill_local.
  destruct (Dict.get "regular" local_fonts).
  - repeat (apply well_keyed_setdefault;
            [unfold weight_keys; set_solver|]); done.
  - destruct (Dict.values local_fonts); [done|]. simpl foldl.
    repeat (apply well_keyed_setdefault;
            [unfold weight_keys; set_solver|]); done.
Qed.

Lemma scan_well_keyed (fs : gmap string string) (ps : list string)
    (acc : list (string * string)) :
  well_keyed acc → well_keyed (foldl (scan_step fs) acc ps).
Proof.
  revert acc. induction ps as [|p ps IH]; intros acc Hacc; [done|].
  simpl. apply IH. unfold scan_step. destruct (present _ _); [|done].
  apply well_keyed_set; [apply override_class_elem | done].
Qed.

Lemma turn_well_keyed (name_safe : string) (weight_url_map : list (Z * string))
    (weight : Z) (font_files : list (string * string)) (w : world)
    (r : list (string * string) * world) :
  turn name_safe weight_url_map weight font_files w r →
  well_keyed font_files → well_keyed r.1.
Proof.
  intros Hturn Hff. destruct Hturn; cbn [fst]; try done;
    apply well_keyed_set; (apply weight_key_of_elem || done).
Qed.

Lemma well_keyed_nil : well_keyed [].
Proof. split; constructor. Qed.

Lemma try_download_well_keyed (E : env) (family : string)
    (weights : option (list Z)) (w : world) (d : list (string * string)) :
  (try_download E family weights w).1 = Some d → well_keyed d.
Proof.
  rewrite try_download_run. cbv zeta.
  destruct (net E _ _) as [css|]; [|done]. cbn [fst snd].
  set (loop := foldM _ _ _ _).
  assert (well_keyed loop.1) as Hloop.
  { apply (download_loop_inv E _ _ (λ ff _, well_keyed ff));
      [|apply well_keyed_nil].
    intros weight ff w' r _ Ht. by eapply turn_well_keyed. }
  destruct (Dict.not_empty (fill_weights loop.1)); [|done].
  intros [= <-]. by apply fill_weights_well_keyed.
Qed.

Lemma download_google_font_well_keyed (E : env) (family : string)
    (weights : option (list Z)) (w : world) (d : list (string * string)) :
  (download_google_font E family weights w).1 = Returned (Some d) →
  well_keyed d.
Proof.
  rewrite download_google_font_cases.
  destruct (cache_dir_made E (history w)); [|done]. cbn [fst].
  intros [= Hd]. by apply (try_download_well_keyed _ _ _ _ _ Hd).
Qed.

Lemma well_keyed_complete (d : list (string * string)) :
  well_keyed d → complete d → Dict.keys d ≡ₚ ["light"; "regular"; "bold"].
Proof.
  intros [Hnd Hall] (Hl & Hr & Hb). apply NoDup_Permutation; [done | |].
  - compute_done.
  - intros k. split.
    + rewrite Forall_forall in Hall. apply Hall.
    + intros Hk. apply mem_keys. each_elem Hk ltac:(done).
Qed.

(** X3. A result of [load_fonts] has the keys "light", "regular" and
    "bold", each once, and no other key; this holds for each of the three
    stages. *)
Theorem result_keys (E : env) (font_family : option string) (w : world)
    (d : list (string * string)) :
  (load_fonts E font_family w).1 = Returned (Some d) →
  Dict.keys d ≡ₚ ["light"; "regular"; "bold"].
Proof.
  intros Hd. apply well_keyed_complete.
  - revert Hd. unfold load_fonts.
    assert (∀ w', (returned load_roboto w').1 = Returned (Some d) →
                  well_keyed d) as Hroboto.
    { intros w'. rewrite returned_eq.
      destruct (load_roboto_spec w') as (evs & -> & _). cbn [fst].
      destruct (forallb _ _); [|done]. intros [= <-].
      split; compute_done. }
    destruct (wants_custom font_family); [|apply Hroboto].
    rewrite bind_eq, foldM_scan. cbn [fst snd].
    destruct (Dict.not_empty _).
    + rewrite ret_eq. cbn [fst]. intros [= <-].
      apply fill_local_well_keyed.
      apply (scan_well_keyed (files w)
               (local_font_patterns (default "" font_family)) []).
      apply well_keyed_nil.
    + rewrite bind_eq.
      match goal with
      | |- context [download_google_font E ?f None ?w1] =>
          pose proof (download_google_font_well_keyed E f None w1) as Hdl;
          destruct (download_google_font E f None w1) as [fonts w2]
      end.
      cbn [fst snd] in *.
      destruct fonts as [[fonts|]|]; [|apply Hroboto|by rewrite ret_eq].
      destruct (Dict.not_empty fonts); [|apply Hroboto].
      rewrite ret_eq. cbn [fst]. intros [= <-]. by apply Hdl.
  - revert Hd. unfold load_fonts.
    destruct (wants_custom font_family); [|apply load_roboto_complete].
    rewrite bind_eq.
    set (scan := foldM _ _ _ w).
    destruct (Dict.not_empty scan.1) eqn:Hlocal.
    + rewrite ret_eq. intros [= <-]. by apply fill_local_complete.
    + rewrite bind_eq.
      destruct (download_google_font E _ None scan.2).1 as [[fonts|]|] eqn:Hdl;
        [|apply load_roboto_complete|by rewrite ret_eq].
      destruct (Dict.not_empty fonts); [|apply load_roboto_complete].
      rewrite ret_eq. intros [= <-].
      by apply (download_google_font_complete _ _ _ _ _ Hdl).
Qed.

Lemma result_keys_witness :
  Dict.keys [ ("regular", "fonts/NRT.ttf"); ("bold", "fonts/NRT-Bd.ttf");
              ("light", "fonts/NRT.ttf") ]
    ≡ₚ ["light"; "regular"; "bold"].
Proof.
  apply (result_keys Samples.E_offline (Some "NRT") SamplesLocal.w_nrt).
  vm_compute. reflexivity.
Defined.

(** Membership of an element that is written in the list. *)
Ltac elem_here :=
  repeat first [apply list_elem_of_here | apply list_elem_of_further].

(** ** Override files come first *)

Lemma scan_not_empty_mono (fs : gmap string string) (ps : list string)
    (acc : list (string * string)) :
  Dict.not_empty acc = true →
  Dict.not_empty (foldl (scan_step fs) acc ps) = true.
Proof.
  revert acc. induction ps as [|p ps IH]; intros acc Hacc; [done|].
  simpl. apply IH. unfold scan_step. destruct (present _ _); [|done].
  apply DictFacts.not_empty_set.
Qed.

Lemma scan_found (fs : gmap string string) (ps : list string)
    (acc : list (string * string)) (q : string) :
  q ∈ ps → is_Some (fs !! local_path q) →
  Dict.not_empty (foldl (scan_step fs) acc ps) = true.
Proof.
  intros Hq Hfile%present_true. revert acc.
  induction ps as [|p ps IH]; intros acc; [by apply elem_of_nil in Hq|].
  simpl. apply elem_of_cons in Hq as [<- | Hq]; [|by apply IH].
  apply scan_not_empty_mono. unfold scan_step. rewrite Hfile.
  apply DictFacts.not_empty_set.
Qed.

(** X4. When a file of one of the six override patterns exists,
    [load_fonts] answers from the local directory alone: it succeeds,
    leaves the disk as it is, and its only effects are the [exists] tests
    of the six patterns, in their order, so the network is not used. *)
Theorem local_override_offline (E : env) (family : string) (w : world)
    (pattern : string) :
  wants_custom (Some family) = true →
  pattern ∈ local_font_patterns family →
  is_Some (files w !! local_path pattern) →
  ∃ d, load_fonts E (Some family) w =
         (Returned (Some d),
          World (files w) (history w ++ (Probe <$> local_paths family))).
Proof.
  intros Hcustom Hin Hfile. unfold load_fonts. rewrite Hcustom.
  cbn [default]. rewrite bind_eq, foldM_scan. cbn [fst snd]. unfold id.
  rewrite (scan_found _ _ _ pattern) by done.
  eexists. by rewrite ret_eq.
Qed.

Lemma local_override_offline_witness :
  ∃ d, load_fonts Samples.E_ok (Some "NRT") SamplesLocal.w_nrt =
         (Returned (Some d),
          World (files SamplesLocal.w_nrt)
            (history SamplesLocal.w_nrt ++ (Probe <$> local_paths "NRT"))).
Proof.
  apply (local_override_offline Samples.E_ok "NRT" SamplesLocal.w_nrt
           "NRT-Bd.ttf").
  - reflexivity.
  - unfold local_font_patterns. elem_here.
  - by eexists.
Defined.

(** ** A single override file *)

Lemma scan_single (fs : gmap string string) (ps : list string)
    (pattern : string) (acc : list (string * string)) :
  (∀ q, q ∈ ps → is_Some (fs !! local_path q) → q = pattern) →
  acc = [] ∨ acc = [(override_class pattern, local_path pattern)] →
  foldl (scan_step fs) acc ps = [] ∨
  foldl (scan_step fs) acc ps = [(override_class pattern, local_path pattern)].
Proof.
  revert acc. induction ps as [|p ps IH]; intros acc Honly Hacc; [done|].
  simpl. apply IH; [intros q Hq; apply Honly; by right|].
  unfold scan_step. destruct (present fs (local_path p)) eqn:Hp; [|done].
  rewrite (Honly p) by (by left || by apply present_true).
  right. destruct Hacc as [-> | ->]; simpl; [done|]. by rewrite decide_True.
Qed.

Lemma fill_local_single (key path k : string) :
  key ∈ weight_keys → k ∈ weight_keys →
  Dict.get k (fill_local [(key, path)]) = Some path.
Proof.
  unfold weight_keys. intros Hkey Hk.
  each_elem Hkey ltac:(each_elem Hk ltac:(done)).
Qed.

(** X5. When the file of exactly one override pattern exists, [load_fonts]
    maps the three weights to that file, whatever the pattern is. *)
Theorem single_override_serves_all (E : env) (family : string) (w : world)
    (pattern : string) :
  wants_custom (Some family) = true →
  pattern ∈ local_font_patterns family →
  is_Some (files w !! local_path pattern) →
  (∀ q, q ∈ local_font_patterns family →
        is_Some (files w !! local_path q) → q = pattern) →
  ∃ d, (load_fonts E (Some family) w).1 = Returned (Some d) ∧
       Dict.get "light" d = Some (local_path pattern) ∧
       Dict.get "regular" d = Some (local_path pattern) ∧
       Dict.get "bold" d = Some (local_path pattern).
Proof.
  intros Hcustom Hin Hfile Honly.
  pose proof (scan_found (files w) _ [] pattern Hin Hfile) as Hne.
  destruct (scan_single (files w) (local_font_patterns family) pattern []
              Honly (or_introl eq_refl)) as [Hscan | Hscan];
    [by rewrite Hscan in Hne|].
  exists (fill_local [(override_class pattern, local_path pattern)]). split.
  - rewrite <- Hscan. by apply load_fonts_local.
  - pose proof (override_class_elem pattern) as Hclass.
    split_and!; apply fill_local_single; try done;
      unfold weight_keys; elem_here.
Qed.

Lemma single_override_serves_all_witness :
  ∃ d, (load_fonts Samples.E_offline (Some "Inter")
          SamplesOverride.w_only_bold).1 = Returned (Some d) ∧
       Dict.get "light" d = Some (local_path "Inter-Bold.ttf") ∧
       Dict.get "regular" d = Some (local_path "Inter-Bold.ttf") ∧
       Dict.get "bold" d = Some (local_path "Inter-Bold.ttf").
Proof.
  apply (single_override_serves_all Samples.E_offline "Inter"
           SamplesOverride.w_only_bold "Inter-Bold.ttf").
  - reflexivity.
  - unfold local_font_patterns. elem_here.
  - by eexists.
  - intros q Hq [c Hc]. unfold local_font_patterns in Hq.
    each_elem Hq ltac:(done || (vm_compute in Hc; discriminate Hc)).
Defined.

(** ** The back-fill rule *)

Lemma get_setdefault (d : list (string * string)) (k k' v : string) :
  Dict.get k' (Dict.setdefault k v d) =
    match Dict.get k' d with
    | Some x => Some x
    | None => if decide (k = k') then Some v else None
    end.
Proof.
  destruct (Dict.get k' d) as [x|] eqn:Hx.
  - by apply DictFacts.get_setdefault_Some.
  - unfold Dict.setdefault. destruct (Dict.mem k d) eqn:Hm.
    + rewrite Hx. case_decide; [subst|done].
      apply DictFacts.mem_true in Hm as [? ?]. congruence.
    + rewrite DictFacts.get_set. by case_decide.
Qed.

Lemma get_copy_regular (d : list (string * string)) (key k : string) :
  Dict.get k (copy_regular key d) =
    match Dict.get k d with
    | Some x => Some x
    | None => if decide (key = k) then Dict.get "regular" d else None
    end.
Proof.
  unfold copy_regular, Dict.mem.
  destruct (Dict.get key d) as [x|] eqn:Hkey; cbn [negb andb].
  - destruct (Dict.get k d) eqn:Hk; [done|]. case_decide; [congruence | done].
  - destruct (Dict.get "regular" d) as [r|] eqn:Hr; cbn [andb].
    + rewrite DictFacts.get_set. case_decide; [subst; by rewrite Hkey|].
      by destruct (Dict.get k d).
    + destruct (Dict.get k d); [done|]. by case_decide.
Qed.

Lemma get_ensure_regular (d : list (string * string)) (k : string) :
  Dict.get k (ensure_regular d) =
    match Dict.get k d with
    | Some x => Some x
    | None => if decide ("regular" = k) then head (Dict.values d) else None
    end.
Proof.
  unfold ensure_regular, Dict.mem.
  destruct (Dict.get "regular" d) as [r|] eqn:Hr; cbn [negb andb].
  - destruct (Dict.get k d) eqn:Hk; [done|]. case_decide; [congruence | done].
  - destruct d as [|[k0 v0] rest]; [simpl; by case_decide|].
    cbn [Dict.not_empty Dict.values fmap list_fmap snd head].
    rewrite DictFacts.get_set. case_decide; [subst; by rewrite Hr|].
    by destruct (Dict.get k _).
Qed.

(** X6. The two blocks that fill missing weights, after the download loop
    and after the local scan, follow one rule: a weight that has a file
    keeps it; a missing weight gets the file of Regular; when Regular is
    missing too, it gets the first file that was registered. *)
Theorem backfill_follows_rule (d : list (string * string)) (key : string) :
  key ∈ ["light"; "regular"; "bold"] →
  Dict.get key (fill_weights d) = backfill_rule d key ∧
  Dict.get key (fill_local d) = backfill_rule d key.
Proof.
  intros Hkey. unfold backfill_rule. split.
  - unfold fill_weights.
    rewrite !get_copy_regular, !get_ensure_regular.
    each_elem Hkey ltac:(
      repeat case_decide; try done;
      destruct (Dict.get "regular" d), (Dict.get "bold" d),
               (Dict.get "light" d), (head (Dict.values d)); done).
  - unfold fill_local.
    destruct (Dict.get "regular" d) as [r|] eqn:Hr.
    + rewrite !get_setdefault, ?Hr.
      each_elem Hkey ltac:(
        rewrite ?Hr; repeat case_decide; try done;
        destruct (Dict.get "bold" d), (Dict.get "light" d); done).
    + destruct d as [|[k0 v0] rest];
        [each_elem Hkey ltac:(done)|].
      cbn [Dict.values fmap list_fmap snd head foldl].
      rewrite !get_setdefault. set (d := (k0, v0) :: rest) in *.
      each_elem Hkey ltac:(
        rewrite ?Hr; repeat case_decide; try done;
        destruct (Dict.get "bold" d), (Dict.get "light" d); done).
Qed.

Lemma backfill_follows_rule_witness :
  Dict.get "light" (fill_weights [("bold", "b.woff2")])
    = backfill_rule [("bold", "b.woff2")] "light" ∧
  Dict.get "light" (fill_local [("bold", "b.woff2")])
    = backfill_rule [("bold", "b.woff2")] "light".
Proof.
  apply (backfill_follows_rule [("bold", "b.woff2")] "light").
  elem_here.
Defined.

(** ** The requests of a call *)

Lemma requests_of_font_fetches (evs : list event) (urls : list string) :
  requests_of evs = GetFont <$> urls → font_fetches evs = urls.
Proof.
  revert urls. induction evs as [|e evs IH]; intros urls.
  - destruct urls; [done | discriminate].
  - destruct e as [p | [f | u] | p]; simpl; try apply IH.
    + destruct urls; discriminate.
    + destruct urls as [|u' urls]; [discriminate|].
      intros [= <- H]. f_equal. by apply IH.
Qed.

(** A turn makes no request, or the request of its own font after it has
    found the cache file missing. *)
Lemma turn_requests (name_safe : string) (weight_url_map : list (Z * string))
    (weight : Z) (font_files : list (string * string)) (w : world)
    (r : list (string * string) * world) :
  turn name_safe weight_url_map weight font_files w r →
  ∃ evs,
    history r.2 = history w ++ evs ∧
    (requests_of evs = [] ∨
     ∃ url path,
       requests_of evs = [GetFont url] ∧
       find_url weight_url_map weight = Some url ∧
       target_path name_safe weight_url_map weight = Some path ∧
       files w !! path = None).
Proof.
  intros Hturn. destruct Hturn as
    [ _ | path _ _ | path url Ht Hu Hnone | path url content Ht Hu Hnone
    | path url fs Ht Hu Hnone _ ]; cbn [snd history].
  - exists []. by rewrite app_nil_r; auto.
  - eexists. split; [done | by left].
  - eexists. split; [done|]. right. by exists url, path.
  - eexists. split; [done|]. right. by exists url, path.
  - eexists. split; [done|]. right. by exists url, path.
Qed.

(** The loop makes at most one request for each weight, each for a font
    whose cache file was missing before the loop. *)
Lemma download_loop_requests (E : env) (name_safe : string)
    (weight_url_map : list (Z * string)) (weights : list Z)
    (font_files : list (string * string)) (w : world) :
  ∃ (evs : list event) (urls : list string),
    history (foldM (download_weight E name_safe weight_url_map)
               font_files weights w).2 = history w ++ evs ∧
    requests_of evs = GetFont <$> urls ∧
    (length urls ≤ length weights)%nat ∧
    ∀ url, url ∈ urls →
      ∃ weight path,
        weight ∈ weights ∧
        find_url weight_url_map weight = Some url ∧
        target_path name_safe weight_url_map weight = Some path ∧
        files w !! path = None.
Proof.
  revert font_files w.
  induction weights as [|x weights IH]; intros font_files w.
  - exists [], []. rewrite app_nil_r. split_and!; try done.
    by intros url ?%elem_of_nil.
  - simpl foldM. rewrite bind_eq.
    pose proof (download_weight_turn E name_safe weight_url_map
                  font_files x w) as Hturn.
    destruct (download_weight E name_safe weight_url_map font_files x w)
      as [ff1 w1].
    destruct (turn_requests _ _ _ _ _ _ Hturn) as (evs1 & Hh1 & Hreq1).
    destruct (IH ff1 w1) as (evs & urls & Hh & Hreq & Hlen & Hurls).
    cbn [fst snd] in *.
    assert (∀ url, url ∈ urls →
              ∃ weight path,
                weight ∈ x :: weights ∧
                find_url weight_url_map weight = Some url ∧
                target_path name_safe weight_url_map weight = Some path ∧
                files w !! path = None) as Hurls'.
    { intros url Hurl.
      destruct (Hurls url Hurl) as (weight & path & Hin & Hf & Ht & Hnone).
      exists weight, path. split_and!; try done; [by right|].
      destruct (files w !! path) as [c|] eqn:Hc; [|done].
      pose proof (turn_keeps_file _ _ _ _ _ _ path c Hturn Hc) as Hkept.
      cbn [snd] in Hkept. congruence. }
    destruct Hreq1 as [Hnone | (url & path & Hone & Hf & Ht & Hfile)].
    + exists (evs1 ++ evs), urls. split_and!.
      * by rewrite Hh, Hh1, <- app_assoc.
      * by rewrite requests_of_app, Hnone, Hreq.
      * simpl. lia.
      * done.
    + exists (evs1 ++ evs), (url :: urls). split_and!.
      * by rewrite Hh, Hh1, <- app_assoc.
      * by rewrite requests_of_app, Hone, Hreq.
      * simpl. lia.
      * intros u [-> | Hu]%elem_of_cons; [|by apply Hurls'].
        exists x, path. split_and!; try done. by left.
Qed.

(** X7. A call of [download_google_font] first makes the cache directory.
    When that fails the call raises and has no other effect: no request is
    sent.  Otherwise its first effect is the catalog request, which names
    all the weights at once (the weights 300, 400 and 700 when none are
    given), and the requests that follow are font requests, at most one
    for each requested weight. *)
Theorem requests_are_bounded (E : env) (family : string)
    (weights : option (list Z)) (w : world) :
  let ws := default [300; 400; 700] weights in
  let request :=
    GetCss (family +:+ ":wght@" +:+
            PyStr.join ";" (PyStr.str_of_int <$> ws)) in
  if cache_dir_made E (history w) then
    ∃ (evs : list event) (urls : list string),
      history (download_google_font E family weights w).2
        = history w ++ Fetch request :: evs ∧
      requests_of evs = GetFont <$> urls ∧
      (length urls ≤ length ws)%nat
  else download_google_font E family weights w = (Raised, w).
Proof.
  intros ws request. subst request.
  change (family +:+ ":wght@" +:+ PyStr.join ";" (PyStr.str_of_int <$> ws))
    with (family_param family ws).
  change ws with (default default_weights weights). clear ws.
  set (ws := default default_weights weights).
  rewrite download_google_font_cases.
  destruct (cache_dir_made E (history w)); [|done]. cbn [snd].
  rewrite try_download_run. cbv zeta. fold ws.
  destruct (net E _ _) as [css|].
  - cbn [snd].
    destruct (download_loop_requests E (font_name_safe family)
                (Css.parse_weight_url_map css) ws []
                (record (Fetch (GetCss (family_param family ws))) w))
      as (evs & urls & Hh & Hreq & Hlen & _).
    exists evs, urls. split_and!; [|done..].
    rewrite Hh. cbn [history record]. by rewrite <- app_assoc.
  - exists [], []. split_and!; try done. simpl. lia.
Qed.

(** X8. Every font that [download_google_font] downloads is the font
    assigned to one of the requested weights, and the cache file of that
    weight did not exist when the call began: a font whose cache file
    exists is never requested. *)
Theorem only_missing_fonts_are_fetched (E : env) (family : string)
    (weights : option (list Z)) (w : world) :
  let ws := default default_weights weights in
  ∃ evs,
    history (download_google_font E family weights w).2 = history w ++ evs ∧
    ∀ url, url ∈ font_fetches evs →
      ∃ css weight path,
        net E (history w) (GetCss (family_param family ws)) = Some css ∧
        weight ∈ ws ∧
        find_url (Css.parse_weight_url_map css) weight = Some url ∧
        target_path (font_name_safe family)
          (Css.parse_weight_url_map css) weight = Some path ∧
        files w !! path = None.
Proof.
  intros ws. rewrite download_google_font_cases.
  destruct (cache_dir_made E (history w)).
  2:{ exists []. split; [by rewrite app_nil_r|]. by intros url ?%elem_of_nil. }
  cbn [snd]. rewrite try_download_run. cbv zeta. fold ws.
  destruct (net E _ _) as [css|].
  - cbn [snd].
    destruct (download_loop_requests E (font_name_safe family)
                (Css.parse_weight_url_map css) ws []
                (record (Fetch (GetCss (family_param family ws))) w))
      as (evs & urls & Hh & Hreq & _ & Hurls).
    exists (Fetch (GetCss (family_param family ws)) :: evs). split.
    + rewrite Hh. cbn [history record]. by rewrite <- app_assoc.
    + intros url Hurl. simpl in Hurl.
      rewrite (requests_of_font_fetches _ _ Hreq) in Hurl.
      destruct (Hurls url Hurl) as (weight & path & ? & ? & ? & ?).
      by exists css, weight, path.
  - exists [Fetch (GetCss (family_param family ws))]. split; [done|].
    by intros url ?%elem_of_nil.
Qed.

(** ** When no font can be downloaded *)

Lemma download_loop_all_fail (E : env) (name_safe : string)
    (weight_url_map : list (Z * string)) (weights : list Z)
    (font_files : list (string * string)) (w : world) :
  (∀ h u, net E h (GetFont u) = None) →
  Forall (λ p, files w !! p = None)
         (needed_paths name_safe weight_url_map weights) →
  ∃ evs,
    foldM (download_weight E name_safe weight_url_map) font_files weights w
      = (font_files, World (files w) (history w ++ evs)).
Proof.
  intros Hnet. revert w.
  induction weights as [|x weights IH]; intros w Habsent.
  - exists []. rewrite app_nil_r. by destruct w.
  - simpl foldM. rewrite bind_eq. unfold needed_paths in *. simpl in Habsent.
    destruct (target_path name_safe weight_url_map x) as [path|] eqn:Ht.
    + apply Forall_cons in Habsent as [Hpath Habsent].
      pose proof Ht as (url & Hfind & _ & _)%target_path_Some.
      rewrite (download_weight_miss E _ _ _ _ _ path url); [|done..|].
      2:{ unfold present. rewrite Hpath. apply bool_decide_eq_false_2.
          by intros [? ?]. }
      cbv zeta. rewrite Hnet. cbn [fst snd].
      destruct (IH (World (files w)
                      (history w ++ [Probe path; Fetch (GetFont url)])))
        as (evs & ->); [done|].
      eexists. cbn [files history]. by rewrite <- app_assoc.
    + rewrite target_path_None by done. cbn [fst snd]. by apply IH.
Qed.

(** X9. When no override file exists, the cache directory is made, no
    cache file of the family exists and every font request fails,
    [load_fonts] answers from the default stage, as it does when the
    catalog fails, and writes nothing. *)
Theorem failed_downloads_fall_back (E : env) (family css : string) (w : world) :
  wants_custom (Some family) = true →
  Forall (λ p, files w !! p = None) (local_paths family) →
  cache_dir_made E (history w ++ (Probe <$> local_paths family)) = true →
  net E (history w ++ (Probe <$> local_paths family)) (catalog_request family)
    = Some css →
  Forall (λ p, files w !! p = None)
         (needed_paths (font_name_safe family)
            (Css.parse_weight_url_map css) default_weights) →
  (∀ h u, net E h (GetFont u) = None) →
  (load_fonts E (Some family) w).1 =
    Returned
      (if forallb (present (files w))
            [ "fonts/Roboto-Bold.ttf"; "fonts/Roboto-Regular.ttf";
              "fonts/Roboto-Light.ttf" ]
       then Some [ ("bold", "fonts/Roboto-Bold.ttf");
                   ("regular", "fonts/Roboto-Regular.ttf");
                   ("light", "fonts/Roboto-Light.ttf") ]
       else None) ∧
  files (load_fonts E (Some family) w).2 = files w.
Proof.
  intros Hcustom Hlocal Hmade Hcss Hcache Hnet.
  rewrite load_fonts_download by done. cbv zeta.
  rewrite (try_download_eq E _ css) by exact Hcss. cbv zeta.
  destruct (download_loop_all_fail E (font_name_safe family)
              (Css.parse_weight_url_map css) default_weights []
              (record (Fetch (catalog_request family))
                 (World (files w)
                    (history w ++ (Probe <$> local_paths family))))
              Hnet Hcache) as (evs & ->).
  cbn [fst snd fill_weights Dict.not_empty]. rewrite returned_eq.
  match goal with
  | |- context [load_roboto ?w1] =>
      destruct (load_roboto_spec w1) as (evs' & -> & _)
  end.
  by cbn [fst snd files record].
Qed.

Lemma failed_downloads_fall_back_witness :
  (load_fonts SamplesDown.E_fonts_down (Some "Noto Sans JP")
     Samples.w_roboto).1 =
    Returned (Some [ ("bold", "fonts/Roboto-Bold.ttf");
                     ("regular", "fonts/Roboto-Regular.ttf");
                     ("light", "fonts/Roboto-Light.ttf") ]) ∧
  files (load_fonts SamplesDown.E_fonts_down (Some "Noto Sans JP")
           Samples.w_roboto).2 = files Samples.w_roboto.
Proof.
  apply (failed_downloads_fall_back SamplesDown.E_fonts_down "Noto Sans JP"
           Samples.css_400_700 Samples.w_roboto).
  - reflexivity.
  - repeat constructor.
  - reflexivity.
  - reflexivity.
  - vm_compute. repeat constructor.
  - reflexivity.
Defined.

(** ** When nothing fails *)

Lemma download_loop_reliable (E : env) (name_safe : string)
    (weight_url_map : list (Z * string)) (weights : list Z)
    (font_files : list (string * string)) (w : world) :
  (∀ h u, is_Some (net E h (GetFont u))) →
  (∀ h path data, disk E h path data = Written) →
  (foldM (download_weight E name_safe weight_url_map) font_files weights w).1
    = foldl (register_cached name_safe weight_url_map) font_files weights.
Proof.
  intros Hnet Hdisk. revert font_files w.
  induction weights as [|x weights IH]; intros font_files w; [done|].
  simpl foldM. rewrite bind_eq, IH. simpl foldl. f_equal.
  unfold register_cached.
  destruct (target_path name_safe weight_url_map x) as [path|] eqn:Ht;
    [|by rewrite target_path_None].
  pose proof Ht as (url & Hfind & _ & _)%target_path_Some.
  destruct (present (files w) path) eqn:Hp.
  - by rewrite (download_weight_cached E _ _ _ _ _ path).
  - rewrite (download_weight_miss E _ _ _ _ _ path url) by done. cbv zeta.
    destruct (Hnet (history w ++ [Probe path]) url) as [content ->].
    by rewrite Hdisk.
Qed.

(** X10. With a network that answers every font request and a disk that
    takes every write, the result of [download_google_font] is decided by
    the catalog alone: two calls that get the same answer to the catalog
    request return the same result, whatever the cache holds at either
    call. *)
Theorem result_independent_of_cache (E : env) (family : string)
    (weights : option (list Z)) (w w' : world) :
  (∀ h u, is_Some (net E h (GetFont u))) →
  (∀ h path data, disk E h path data = Written) →
  (let request :=
     GetCss (family_param family (default default_weights weights)) in
   net E (history w) request = net E (history w') request) →
  (download_google_font E family weights w).1 =
  (download_google_font E family weights w').1.
Proof.
  intros Hnet Hdisk Hcat. rewrite !download_google_font_cases.
  rewrite !cache_dir_made_written by done. cbn [fst]. f_equal.
  rewrite !try_download_run. cbv zeta in *.
  rewrite Hcat. destruct (net E (history w') _) as [css|]; [|done].
  cbn [fst]. by rewrite !download_loop_reliable.
Qed.

Lemma result_independent_of_cache_witness :
  (download_google_font Samples.E_ok "Noto Sans JP" None Samples.w_empty).1 =
  (download_google_font Samples.E_ok "Noto Sans JP" None
     SamplesCache.w_regular_cached).1.
Proof.
  apply (result_independent_of_cache Samples.E_ok "Noto Sans JP" None
           Samples.w_empty SamplesCache.w_regular_cached).
  - intros h u. by eexists.
  - reflexivity.
  - reflexivity.
Defined.

(** ** The catalog read from a stylesheet *)

Lemma get_foldl_add_block_keeps (blocks : list string)
    (acc : list (Z * string)) (weight : Z) :
  (∀ b, b ∈ blocks → Css.search_weight b = Some weight →
        Css.search_url b = None) →
  Dict.get weight (foldl Css.add_block acc blocks) = Dict.get weight acc.
Proof.
  revert acc. induction blocks as [|b blocks IH]; intros acc Hblocks; [done|].
  simpl. rewrite IH by (intros; apply Hblocks; [by right | done]).
  unfold Css.add_block.
  destruct (Css.search_weight b) as [x|] eqn:Hw; [|done].
  destruct (Css.search_url b) as [u|] eqn:Hu; [|done].
  rewrite DictFacts.get_set. case_decide; [subst|done].
  rewrite (Hblocks b) in Hu; [done | by left | done].
Qed.

(** X11. When several [@font-face] blocks of a stylesheet declare the same
    weight, the catalog keeps the address of the last of them that has
    one. *)
Theorem last_block_wins (css : string) (l1 l2 : list string) (b : string)
    (weight : Z) (url : string) :
  tail (Css.split_font_face css) = l1 ++ b :: l2 →
  Css.search_weight b = Some weight →
  Css.search_url b = Some url →
  (∀ b', b' ∈ l2 → Css.search_weight b' = Some weight →
         Css.search_url b' = None) →
  Dict.get weight (Css.parse_weight_url_map css) = Some url.
Proof.
  intros Hsplit Hw Hu Hlater. unfold Css.parse_weight_url_map.
  rewrite Hsplit, foldl_app. simpl.
  rewrite get_foldl_add_block_keeps by done.
  unfold Css.add_block at 1. rewrite Hw, Hu. apply DictFacts.get_set_eq.
Qed.

Lemma last_block_wins_witness :
  Dict.get 400 (Css.parse_weight_url_map SamplesCss.css_two_subsets)
    = Some "https://fonts.example/s/latin.woff2".
Proof.
  apply (last_block_wins SamplesCss.css_two_subsets
           [SamplesCss.block_cyrillic] [] SamplesCss.block_latin).
  - vm_compute. reflexivity.
  - vm_compute. reflexivity.
  - vm_compute. reflexivity.
  - by intros b' ?%elem_of_nil.
Defined.

Lemma endswith_app_r (p t s : string) :
  PyStr.endswith p s = true → PyStr.endswith p (t +:+ s) = true.
Proof.
  intros Hs. induction t as [|c t IH]; [done|].
  rewrite PyStrFacts.str_app_cons, endswith_unfold, IH. apply orb_true_r.
Qed.

Lemma url_at_shape (s url : string) :
  Css.url_at s = Some url →
  PyStr.startswith "https://" url = true ∧
  (PyStr.endswith ".woff2" url = true ∨ PyStr.endswith ".ttf" url = true).
Proof.
  unfold Css.url_at. destruct (PyStr.startswith "url(https://" s); [|done].
  destruct (PyStr.startswith ")" _); [|done]. cbn [andb].
  set (run := Css.span _ _).
  destruct (PyStr.endswith ".woff2" run && _) eqn:Hwoff; cbn [orb].
  - intros [= <-]. apply andb_true_iff in Hwoff as [Hend _].
    split; [done|]. left. by apply endswith_app_r.
  - destruct (PyStr.endswith ".ttf" run && _) eqn:Httf; [|done].
    intros [= <-]. apply andb_true_iff in Httf as [Hend _].
    split; [done|]. right. by apply endswith_app_r.
Qed.

Lemma search_url_shape (s url : string) :
  Css.search_url s = Some url →
  PyStr.startswith "https://" url = true ∧
  (PyStr.endswith ".woff2" url = true ∨ PyStr.endswith ".ttf" url = true).
Proof.
  induction s as [|c s IH]; [done|]. simpl Css.search_url.
  destruct (Css.url_at (String c s)) eqn:Hat; [|exact IH].
  intros [= <-]. by eapply url_at_shape.
Qed.

Lemma digits_nonneg (s : string) (acc : Z) :
  0 ≤ acc →
  0 ≤ (fix go (acc : Z) (s : string) : Z :=
         match s with
         | "" => acc
         | String c s' => go (10 * acc + (Z.of_N (N_of_ascii c) - 48)) s'
         end) acc (Css.span Css.is_digit s).
Proof.
  revert acc. induction s as [|c s IH]; intros acc Hacc; [done|].
  simpl Css.span. destruct (Css.is_digit c) eqn:Hc; [|done].
  apply IH. unfold Css.is_digit in Hc.
  apply andb_true_iff in Hc as [Hlo%N.leb_le _]. lia.
Qed.

Lemma search_weight_nonneg (s : string) (weight : Z) :
  Css.search_weight s = Some weight → 0 ≤ weight.
Proof.
  assert (∀ t, Css.weight_at t = Some weight → 0 ≤ weight) as Hat.
  { intros t. unfold Css.weight_at.
    destruct (PyStr.startswith _ _); [|done].
    destruct (PyStr.nonempty _); [|done].
    intros [= <-]. by apply digits_nonneg. }
  induction s as [|c s IH]; [done|]. simpl Css.search_weight.
  destruct (Css.weight_at (String c s)) eqn:Hw; [|exact IH].
  intros [= <-]. by eapply Hat.
Qed.

Lemma set_entries_Forall {K V} `{EqDecision K} (P : K * V → Prop)
    (d : list (K * V)) (k : K) (v : V) :
  Forall P d → P (k, v) → Forall P (Dict.set k v d).
Proof.
  intros Hd Hv. induction Hd as [|[k' v'] d Hx Hd IH]; simpl.
  - by repeat constructor.
  - case_decide; [subst|]; by constructor.
Qed.

(** X12. Every entry of the catalog read from a stylesheet has a weight
    that is not negative and an address that starts with [https://] and
    ends with [.woff2] or [.ttf]; so the extension given to the cache file
    is the extension of the address it is downloaded from. *)
Theorem catalog_entries_shape (css : string) (weight : Z) (url : string) :
  (weight, url) ∈ Css.parse_weight_url_map css →
  0 ≤ weight ∧
  PyStr.startswith "https://" url = true ∧
  PyStr.endswith ("." +:+ file_ext url) url = true.
Proof.
  assert (Forall (λ e : Z * string,
                    0 ≤ e.1 ∧ PyStr.startswith "https://" e.2 = true ∧
                    (PyStr.endswith ".woff2" e.2 = true ∨
                     PyStr.endswith ".ttf" e.2 = true))
            (Css.parse_weight_url_map css)) as Hall.
  { unfold Css.parse_weight_url_map.
    generalize (tail (Css.split_font_face css)).
    assert (Forall (λ e : Z * string,
                      0 ≤ e.1 ∧ PyStr.startswith "https://" e.2 = true ∧
                      (PyStr.endswith ".woff2" e.2 = true ∨
                       PyStr.endswith ".ttf" e.2 = true)) []) as Hacc
      by constructor.
    revert Hacc. generalize (@nil (Z * string)).
    intros acc Hacc blocks. revert acc Hacc.
    induction blocks as [|b blocks IH]; intros acc Hacc; [done|].
    simpl. apply IH. unfold Css.add_block.
    destruct (Css.search_weight b) as [x|] eqn:Hw; [|done].
    destruct (Css.search_url b) as [u|] eqn:Hu; [|done].
    apply set_entries_Forall; [done|]. cbn [fst snd].
    split; [by eapply search_weight_nonneg | by eapply search_url_shape]. }
  intros Hin. rewrite Forall_forall in Hall.
  destruct (Hall _ Hin) as (Hw & Hhttps & Hext). cbn [fst snd] in *.
  split_and!; [done..|]. unfold file_ext.
  destruct (PyStr.endswith ".woff2" url) eqn:Hwoff; [done|].
  by destruct Hext.
Qed.

Lemma catalog_entries_shape_witness :
  0 ≤ 700 ∧
  PyStr.startswith "https://" Samples.u_bold = true ∧
  PyStr.endswith ("." +:+ file_ext Samples.u_bold) Samples.u_bold = true.
Proof.
  apply (catalog_entries_shape Samples.css_400_700 700 Samples.u_bold).
  vm_compute. elem_here.
Defined.

(** ** A stylesheet without blocks *)

Lemma split_without_match (s : string) :
  PyStr.contains "@font-face" s = false → Css.split_go 0 s = [s].
Proof.
  induction s as [|c s IH]; [done|].
  rewrite PyStrFacts.contains_cons.
  intros [Hstart Hrest]%orb_false_iff. simpl Css.split_go.
  unfold Css.match_font_face. rewrite Hstart. by rewrite IH.
Qed.

(** X13. Once the cache directory is made, an answer to the catalog
    request in which [@font-face] does not occur gives an empty catalog:
    [download_google_font] then returns [None] after that one request,
    without a look at the cache. *)
Theorem answer_without_blocks (E : env) (family css : string) (w : world) :
  cache_dir_made E (history w) = true →
  net E (history w) (catalog_request family) = Some css →
  PyStr.contains "@font-face" css = false →
  Css.parse_weight_url_map css = [] ∧
  download_google_font E family None w =
    (Returned None,
     World (files w) (history w ++ [Fetch (catalog_request family)])).
Proof.
  intros Hmade Hnet Hnone.
  assert (Css.parse_weight_url_map css = []) as Hparse.
  { unfold Css.parse_weight_url_map, Css.split_font_face.
    by rewrite split_without_match. }
  split; [done|]. rewrite download_google_font_cases, Hmade.
  rewrite download_unavailable; [done|].
  right. by exists css.
Qed.

Lemma answer_without_blocks_witness :
  Css.parse_weight_url_map "<html><body>Not a stylesheet</body></html>" = [] ∧
  download_google_font SamplesCss.E_html "Noto Sans JP" None Samples.w_empty =
    (Returned None,
     World (files Samples.w_empty)
       (history Samples.w_empty ++ [Fetch (catalog_request "Noto Sans JP")])).
Proof.
  apply (answer_without_blocks SamplesCss.E_html "Noto Sans JP").
  - reflexivity.
  - reflexivity.
  - reflexivity.
Defined.

(** ** Every weight gets an address *)

Lemma get_in_values {K} `{EqDecision K} (d : list (K * string)) (k : K)
    (v : string) :
  Dict.get k d = Some v → v ∈ Dict.values d.
Proof.
  unfold Dict.values. induction d as [|[k' v'] d IH]; simpl; [done|].
  case_decide; [intros [= <-]; left | intros Hk; right; by apply IH].
Qed.

Lemma get_in_entries {K} `{EqDecision K} (d : list (K * string)) (k : K)
    (v : string) :
  Dict.get k d = Some v → (k, v) ∈ d.
Proof.
  induction d as [|[k' v'] d IH]; simpl; [done|].
  case_decide; [subst; intros [= <-]; left | intros Hk; right; by apply IH].
Qed.

(** X14. When the catalog read from a stylesheet is not empty, every
    requested weight is assigned an address of the catalog, whether the
    catalog declares that weight or not; a declared weight gets its own
    address. *)
Theorem every_weight_assigned (css : string) (weight : Z) :
  Css.parse_weight_url_map css ≠ [] →
  ∃ url,
    find_url (Css.parse_weight_url_map css) weight = Some url ∧
    url ∈ Dict.values (Css.parse_weight_url_map css) ∧
    url ≠ "" ∧
    (∀ own, Dict.get weight (Css.parse_weight_url_map css) = Some own →
            url = own).
Proof.
  intros Hne. pose proof (parse_urls_nonempty css) as Hurls.
  set (catalog := Css.parse_weight_url_map css) in *.
  assert (∀ k u, Dict.get k catalog = Some u → PyStr.nonempty u = true) as Hget.
  { intros k u Hk%get_in_entries. rewrite Forall_forall in Hurls.
    by apply (Hurls (k, u)). }
  unfold find_url. destruct (Dict.get weight catalog) as [own|] eqn:Hown.
  - pose proof (Hget _ _ Hown) as Hn. cbn [truthy]. rewrite Hn. cbn [negb andb].
    exists own. split_and!; [done | by eapply get_in_values | | by intros ? [= <-]].
    by destruct own.
  - cbn [truthy negb andb].
    destruct catalog as [|[k0 u0] rest] eqn:Hcat; [done|].
    rewrite <- Hcat in *. assert (Dict.not_empty catalog = true) as ->
      by by rewrite Hcat.
    unfold closest_weight.
    assert (Dict.keys catalog = k0 :: Dict.keys rest) as -> by by rewrite Hcat.
    set (c := py_min_by _ k0 _).
    assert (c ∈ Dict.keys catalog) as Hc.
    { destruct (py_min_by_first (λ x, Z.abs (x - weight)) (Dict.keys rest)
                  [] [] k0) as (l1 & l2 & Heq & _);
        [by intros ? ?%elem_of_nil | by intros ? ?%elem_of_nil |].
      simpl in Heq. rewrite Hcat. change (Dict.keys ((k0, u0) :: rest))
        with (k0 :: Dict.keys rest). rewrite Heq.
      apply elem_of_app. right. left. }
    destruct (get_of_key _ _ Hc) as [u Hu]. rewrite Hu.
    exists u. split_and!; [done | by eapply get_in_values | | done].
    pose proof (Hget _ _ Hu). by destruct u.
Qed.

Lemma every_weight_assigned_witness :
  ∃ url,
    find_url (Css.parse_weight_url_map Samples.css_400_700) 300 = Some url ∧
    url ∈ Dict.values (Css.parse_weight_url_map Samples.css_400_700) ∧
    url ≠ "" ∧
    (∀ own, Dict.get 300 (Css.parse_weight_url_map Samples.css_400_700)
              = Some own → url = own).
Proof.
  apply (every_weight_assigned Samples.css_400_700 300).
  vm_compute. discriminate.
Defined.

(** ** The normalised family name *)

Lemma startswith_char (a b : ascii) (s : string) :
  PyStr.startswith (String a "") (String b s) = Ascii.eqb a b.
Proof. cbn [PyStr.startswith]. apply andb_true_r. Qed.

Lemma safe_char_fixed (c : ascii) :
  let c' := PyStr.lower_char (if Ascii.eqb c " " then "_"%char else c) in
  PyStr.lower_char (if Ascii.eqb c' " " then "_"%char else c') = c' ∧
  Ascii.eqb c' " " = false ∧
  PyStr.lower_char c' = c'.
Proof. by destruct c as [[] [] [] [] [] [] [] []]. Qed.

Lemma safe_char_ascii (c : ascii) :
  (N_of_ascii c <? 128)%N = true →
  (N_of_ascii (PyStr.lower_char (if Ascii.eqb c " " then "_"%char else c))
     <? 128)%N = true.
Proof. by destruct c as [[] [] [] [] [] [] [] []]. Qed.

(** X15. Normalising a family name of ASCII characters keeps its length,
    leaves no space and no capital letter in it, gives a text of ASCII
    characters again, and changes nothing when it is done twice. *)
Theorem font_name_safe_normal (family : string) :
  PyStr.ascii_text family = true →
  font_name_safe (font_name_safe family) = font_name_safe family ∧
  String.length (font_name_safe family) = String.length family ∧
  PyStr.contains " " (font_name_safe family) = false ∧
  PyStr.lower (font_name_safe family) = font_name_safe family ∧
  PyStr.ascii_text (font_name_safe family) = true.
Proof.
  unfold font_name_safe. induction family as [|c family IH]; [done|].
  cbn [PyStr.ascii_text]. intros [Hc Hfamily]%andb_true_iff.
  destruct (IH Hfamily) as (Hidem & Hlen & Hspace & Hlower & Hascii).
  destruct (safe_char_fixed c) as (Hc1 & Hc2 & Hc3). cbv zeta in *.
  simpl PyStr.replace_char. simpl PyStr.lower. split_and!.
  - by rewrite Hc1, Hidem.
  - simpl. by rewrite Hlen.
  - rewrite PyStrFacts.contains_cons, Hspace, orb_false_r.
    by rewrite startswith_char, Ascii.eqb_sym, Hc2.
  - by rewrite Hc3, Hlower.
  - cbn [PyStr.ascii_text]. by rewrite safe_char_ascii, Hascii.
Qed.

Lemma font_name_safe_normal_witness :
  font_name_safe (font_name_safe "Noto Sans JP") = font_name_safe "Noto Sans JP" ∧
  String.length (font_name_safe "Noto Sans JP") = String.length "Noto Sans JP" ∧
  PyStr.contains " " (font_name_safe "Noto Sans JP") = false ∧
  PyStr.lower (font_name_safe "Noto Sans JP") = font_name_safe "Noto Sans JP" ∧
  PyStr.ascii_text (font_name_safe "Noto Sans JP") = true.
Proof.
  apply (font_name_safe_normal "Noto Sans JP").
  reflexivity.
Defined.

(** ** Where the files are *)

Lemma contains_slash_cons (c : ascii) (s : string) :
  PyStr.contains "/" (String c s) = Ascii.eqb c "/" || PyStr.contains "/" s.
Proof.
  by rewrite PyStrFacts.contains_cons, startswith_char, Ascii.eqb_sym.
Qed.

Lemma contains_slash_app (a b : string) :
  PyStr.contains "/" (a +:+ b) =
    PyStr.contains "/" a || PyStr.contains "/" b.
Proof.
  induction a as [|c a IH]; [done|].
  rewrite PyStrFacts.str_app_cons, !contains_slash_cons, IH.
  apply orb_assoc.
Qed.

Lemma contains_slash_safe (family : string) :
  PyStr.contains "/" (font_name_safe family) = PyStr.contains "/" family.
Proof.
  unfold font_name_safe. induction family as [|c family IH]; [done|].
  simpl PyStr.replace_char. simpl PyStr.lower.
  rewrite !contains_slash_cons, IH. f_equal.
  by destruct c as [[] [] [] [] [] [] [] []].
Qed.

Lemma split_without_slash (s : string) :
  PyStr.contains "/" s = false → Paths.split_slash s = [s].
Proof.
  induction s as [|c s IH]; [done|].
  rewrite contains_slash_cons. intros [Hc Hs]%orb_false_iff.
  simpl. by rewrite Hc, IH.
Qed.

Lemma startswith_slash_contains (s : string) :
  PyStr.contains "/" s = false → PyStr.startswith "/" s = false.
Proof.
  destruct s as [|c s]; [done|]. rewrite contains_slash_cons.
  intros [Hc _]%orb_false_iff.
  by rewrite startswith_char, Ascii.eqb_sym, Hc.
Qed.

Lemma kept_long (s : string) :
  (2 ≤ String.length s)%nat → Paths.kept s = true.
Proof.
  destruct s as [|a [|b s]]; simpl String.length; try lia. intros _.
  unfold Paths.kept. cbn [PyStr.nonempty andb String.eqb].
  by destruct (Ascii.eqb a ".").
Qed.

(** X16. For a family name without a slash, the override files are looked
    up in [fonts/] under the six pattern names, and the cache file of a
    weight is [fonts/cache/] followed by the normalised name, an
    underscore, the weight key, a dot and the extension. *)
Theorem plain_family_paths (family key ext : string) :
  PyStr.contains "/" family = false →
  key ∈ ["light"; "regular"; "bold"] →
  ext ∈ ["woff2"; "ttf"] →
  local_paths family =
    [ "fonts/" +:+ family +:+ "-Reg.ttf";
      "fonts/" +:+ family +:+ "-Regular.ttf";
      "fonts/" +:+ family +:+ ".ttf";
      "fonts/" +:+ family +:+ "-Bold.ttf";
      "fonts/" +:+ family +:+ "-Bd.ttf";
      "fonts/" +:+ family +:+ "-Light.ttf" ] ∧
  Paths.cache_path (font_filename (font_name_safe family) key ext) =
    "fonts/cache/" +:+ font_name_safe family +:+ "_" +:+ key +:+ "." +:+ ext.
Proof.
  intros Hplain Hkey Hext. split.
  - assert (∀ suffix, PyStr.contains "/" suffix = false →
              local_path (family +:+ suffix) = "fonts/" +:+ family +:+ suffix)
      as Hlocal.
    { intros suffix Hsuffix. unfold local_path, Paths.os_path_join.
      rewrite startswith_slash_contains; [done|].
      by rewrite contains_slash_app, Hplain, Hsuffix. }
    unfold local_paths, local_font_patterns. rewrite !fmap_cons.
    by rewrite !Hlocal.
  - set (name := font_filename (font_name_safe family) key ext).
    assert (PyStr.contains "/" name = false) as Hname.
    { subst name. unfold font_filename.
      rewrite !contains_slash_app, contains_slash_safe, Hplain.
      each_elem Hkey ltac:(each_elem Hext ltac:(done)). }
    assert (Paths.kept name = true) as Hkept.
    { apply kept_long. subst name. unfold font_filename.
      rewrite !PyStrFacts.str_length_app. simpl. lia. }
    unfold Paths.cache_path, Paths.components.
    rewrite startswith_slash_contains, split_without_slash by done.
    rewrite filter_cons, decide_True by done. done.
Qed.

Lemma plain_family_paths_witness :
  local_paths "Noto Sans JP" =
    [ "fonts/" +:+ "Noto Sans JP" +:+ "-Reg.ttf";
      "fonts/" +:+ "Noto Sans JP" +:+ "-Regular.ttf";
      "fonts/" +:+ "Noto Sans JP" +:+ ".ttf";
      "fonts/" +:+ "Noto Sans JP" +:+ "-Bold.ttf";
      "fonts/" +:+ "Noto Sans JP" +:+ "-Bd.ttf";
      "fonts/" +:+ "Noto Sans JP" +:+ "-Light.ttf" ] ∧
  Paths.cache_path (font_filename (font_name_safe "Noto Sans JP") "bold" "ttf") =
    "fonts/cache/" +:+ font_name_safe "Noto Sans JP" +:+ "_" +:+ "bold"
      +:+ "." +:+ "ttf".
Proof.
  apply (plain_family_paths "Noto Sans JP" "bold" "ttf").
  - reflexivity.
  - elem_here.
  - elem_here.
Defined.

(** X17. A family name that starts with a slash is taken for an absolute
    path: its override files are looked up at the name itself followed by
    the pattern suffix, and its cache files lie at an absolute path, both
    outside [fonts/]. *)
Theorem absolute_family_paths (family : string) :
  PyStr.startswith "/" family = true →
  local_paths family =
    [ family +:+ "-Reg.ttf"; family +:+ "-Regular.ttf"; family +:+ ".ttf";
      family +:+ "-Bold.ttf"; family +:+ "-Bd.ttf"; family +:+ "-Light.ttf" ] ∧
  ∀ key ext,
    PyStr.startswith "/"
      (Paths.cache_path (font_filename (font_name_safe family) key ext)) = true.
Proof.
  intros Habs. split.
  - assert (∀ suffix, local_path (family +:+ suffix) = family +:+ suffix)
      as Hlocal.
    { intros suffix. unfold local_path, Paths.os_path_join.
      by rewrite (PyStrFacts.startswith_app _ _ _ Habs). }
    unfold local_paths, local_font_patterns. rewrite !fmap_cons.
    by rewrite !Hlocal.
  - intros key ext. unfold Paths.cache_path.
    assert (PyStr.startswith "/"
              (font_filename (font_name_safe family) key ext) = true) as ->.
    { unfold font_filename. apply PyStrFacts.startswith_app.
      destruct family as [|c family]; [done|].
      rewrite startswith_char in Habs. apply Ascii.eqb_eq in Habs as <-.
      done. }
    by destruct (_ && _).
Qed.

Lemma absolute_family_paths_witness :
  local_paths "/tmp/x" =
    [ "/tmp/x" +:+ "-Reg.ttf"; "/tmp/x" +:+ "-Regular.ttf"; "/tmp/x" +:+ ".ttf";
      "/tmp/x" +:+ "-Bold.ttf"; "/tmp/x" +:+ "-Bd.ttf"; "/tmp/x" +:+ "-Light.ttf" ] ∧
  ∀ key ext,
    PyStr.startswith "/"
      (Paths.cache_path (font_filename (font_name_safe "/tmp/x") key ext)) = true.
Proof.
  apply (absolute_family_paths "/tmp/x"). reflexivity.
Defined.

(** ** The paths of a result come from one stage *)

Section Values.
Variable Q : string → Prop.

Lemma values_get (d : list (string * string)) (k v : string) :
  Forall (λ e, Q e.2) d → Dict.get k d = Some v → Q v.
Proof.
  intros Hd. induction Hd as [|[k' v'] d Hx Hd IH]; simpl; [done|].
  case_decide; [by intros [= <-] | done].
Qed.

Lemma values_setdefault (d : list (string * string)) (k v : string) :
  Forall (λ e, Q e.2) d → Q v → Forall (λ e, Q e.2) (Dict.setdefault k v d).
Proof.
  intros Hd Hv. unfold Dict.setdefault. destruct (Dict.mem k d); [done|].
  by apply (set_values_Forall Q).
Qed.

Lemma values_fill_weights (font_files : list (string * string)) :
  Forall (λ e, Q e.2) font_files → Forall (λ e, Q e.2) (fill_weights font_files).
Proof.
  intros Hff.
  assert (Forall (λ e, Q e.2) (ensure_regular font_files)) as H1.
  { unfold ensure_regular. destruct (_ && _); [|done].
    destruct font_files as [|[k v] rest]; [done|]. simpl Dict.values.
    apply (set_values_Forall Q); [done|]. by apply Forall_cons in Hff as [? _]. }
  assert (∀ key d, Forall (λ e, Q e.2) d →
                   Forall (λ e, Q e.2) (copy_regular key d)) as H2.
  { intros key d Hd. unfold copy_regular. destruct (_ && _); [|done].
    destruct (Dict.get "regular" d) as [r|] eqn:Hr; [|done].
    apply (set_values_Forall Q); [done|]. by eapply values_get. }
  unfold fill_weights. by do 2 apply H2.
Qed.

Lemma values_fill_local (local_fonts : list (string * string)) :
  Forall (λ e, Q e.2) local_fonts → Forall (λ e, Q e.2) (fill_local local_fonts).
Proof.
  intros Hlf. unfold fill_local.
  destruct (Dict.get "regular" local_fonts) as [base|] eqn:Hr.
  - pose proof (values_get _ _ _ Hlf Hr).
    by repeat (apply values_setdefault; [|done]).
  - destruct local_fonts as [|[k v] rest]; [done|]. simpl Dict.values.
    cbv beta iota. simpl foldl.
    pose proof Hlf as [Hv _]%Forall_cons. cbn [snd] in Hv.
    by repeat (apply values_setdefault; [|done]).
Qed.

End Values.

Lemma scan_values (fs : gmap string string) (family : string)
    (ps : list string) (acc : list (string * string)) :
  ps ⊆ local_font_patterns family →
  Forall (λ e, e.2 ∈ local_paths family) acc →
  Forall (λ e, e.2 ∈ local_paths family) (foldl (scan_step fs) acc ps).
Proof.
  revert acc. induction ps as [|p ps IH]; intros acc Hps Hacc; [done|].
  simpl. apply IH; [intros q Hq; apply Hps; by right|].
  unfold scan_step. destruct (present _ _); [|done].
  apply (set_values_Forall (λ v, v ∈ local_paths family)); [done|].
  apply list_elem_of_fmap_2, Hps. left.
Qed.

Lemma target_path_cache_file (family : string)
    (weight_url_map : list (Z * string)) (weight : Z) (path : string) :
  target_path (font_name_safe family) weight_url_map weight = Some path →
  cache_file_of family path.
Proof.
  intros (url & _ & _ & ->)%target_path_Some.
  exists (weight_key_of weight), (file_ext url). split_and!; [|  |done].
  - apply weight_key_of_elem.
  - unfold font_exts. destruct (file_ext_cases url) as [-> | ->]; elem_here.
Qed.

Lemma try_download_values (E : env) (family : string)
    (weights : option (list Z)) (w : world) (d : list (string * string)) :
  (try_download E family weights w).1 = Some d →
  Forall (λ e, cache_file_of family e.2) d.
Proof.
  rewrite try_download_run. cbv zeta.
  destruct (net E _ _) as [css|]; [|done]. cbn [fst snd].
  set (loop := foldM _ _ _ _).
  assert (Forall (λ e, cache_file_of family e.2) loop.1) as Hloop.
  { apply (download_loop_inv E _ _
             (λ ff _, Forall (λ e, cache_file_of family e.2) ff));
      [|constructor].
    intros weight ff w' r _ Hturn Hff.
    destruct Hturn as [ _ | path Ht _ | | path url content Ht _ _ | ];
      cbn [fst]; try done;
      apply (set_values_Forall (cache_file_of family)); try done;
      by eapply target_path_cache_file. }
  destruct (Dict.not_empty (fill_weights loop.1)); [|done].
  intros [= <-]. by apply (values_fill_weights (cache_file_of family)).
Qed.

Lemma download_google_font_values (E : env) (family : string)
    (weights : option (list Z)) (w : world) (d : list (string * string)) :
  (download_google_font E family weights w).1 = Returned (Some d) →
  Forall (λ e, cache_file_of family e.2) d.
Proof.
  rewrite download_google_font_cases.
  destruct (cache_dir_made E (history w)); [|done]. cbn [fst].
  intros [= Hd]. by apply (try_download_values _ _ _ _ _ Hd).
Qed.

(** X18. The paths of a result of [load_fonts] come from one stage: they
    are all override paths of the family, or all cache files of the family
    (one of the three weight keys with one of the two extensions), or the
    result is the fixed default. *)
Theorem result_paths_origin (E : env) (family : string) (w : world)
    (d : list (string * string)) :
  (load_fonts E (Some family) w).1 = Returned (Some d) →
  Forall (λ e, e.2 ∈ local_paths family) d ∨
  Forall (λ e, ∃ key ext,
            key ∈ ["light"; "regular"; "bold"] ∧ ext ∈ ["woff2"; "ttf"] ∧
            e.2 = Paths.cache_path
                    (font_filename (font_name_safe family) key ext)) d ∨
  d = [ ("bold", "fonts/Roboto-Bold.ttf");
        ("regular", "fonts/Roboto-Regular.ttf");
        ("light", "fonts/Roboto-Light.ttf") ].
Proof.
  assert (∀ w', (returned load_roboto w').1 = Returned (Some d) →
                d = roboto_fonts) as Hroboto.
  { intros w'. rewrite returned_eq.
    destruct (load_roboto_spec w') as (evs & -> & _). cbn [fst].
    destruct (forallb _ _); [|done]. by intros [= <-]. }
  unfold load_fonts.
  destruct (wants_custom (Some family));
    [|intros ?%Hroboto; by right; right].
  cbn [default]. rewrite bind_eq, foldM_scan. cbn [fst snd]. unfold id.
  destruct (Dict.not_empty _).
  - rewrite ret_eq. cbn [fst]. intros [= <-]. left.
    apply (values_fill_local (λ v, v ∈ local_paths family)).
    apply (scan_values (files w) family (local_font_patterns family) []);
      [done | constructor].
  - rewrite bind_eq.
    match goal with
    | |- context [download_google_font E family None ?w1] =>
        pose proof (download_google_font_values E family None w1) as Hdl;
        destruct (download_google_font E family None w1) as [fonts w2]
    end.
    cbn [fst snd] in *.
    destruct fonts as [[fonts|]|];
      [|intros ?%Hroboto; by right; right|by rewrite ret_eq].
    destruct (Dict.not_empty fonts); [|intros ?%Hroboto; by right; right].
    rewrite ret_eq. cbn [fst]. intros [= <-]. right. left. by apply Hdl.
Qed.

Lemma result_paths_origin_witness :
  let d := [ ("light", "fonts/cache/noto_sans_jp_light.woff2");
             ("regular", "fonts/cache/noto_sans_jp_regular.woff2");
             ("bold", "fonts/cache/noto_sans_jp_bold.woff2") ] in
  Forall (λ e, e.2 ∈ local_paths "Noto Sans JP") d ∨
  Forall (λ e, ∃ key ext,
            key ∈ ["light"; "regular"; "bold"] ∧ ext ∈ ["woff2"; "ttf"] ∧
            e.2 = Paths.cache_path
                    (font_filename (font_name_safe "Noto Sans JP") key ext)) d ∨
  d = [ ("bold", "fonts/Roboto-Bold.ttf");
        ("regular", "fonts/Roboto-Regular.ttf");
        ("light", "fonts/Roboto-Light.ttf") ].
Proof.
  apply (result_paths_origin Samples.E_ok "Noto Sans JP" Samples.w_empty).
  vm_compute. reflexivity.
Defined.

(** ** What a call may write *)





